(** * FRC Scout Scanner: ingestion, parsing, dedup and delivery pipeline

    A shallow embedding of the data-handling core of [src/index.tsx]
    (the React component [App] and its module-level helpers), together
    with the properties of that code which the specification states.

    Modelling conventions.
    - A JavaScript string is a [string]: a sequence of code units, here
      restricted to the code units below 256.  [isWhiteSpace] is the
      JavaScript [WhiteSpace]/[LineTerminator] class restricted to that
      range (what [String.prototype.trim] strips and what [\s] matches).
    - A [Record<string,string>] is a [gmap string string]; an optional
      field is an [option].
    - React state updates ([setScanHistory (prev => ...)]) are functions
      of the previous store, applied in the order in which they were
      queued.  The [scanHistory] value that a handler reads directly is
      the value of the render that created the handler; it is passed to
      the handlers below as an explicit argument.
    - The clock ([Date.now], [toLocaleTimeString]), the decompressor
      ([window.LZString]), the confirmation dialog and the outcome of
      [fetch] belong to the environment and are arguments. *)

From Stdlib Require Import Ascii.
From stdpp Require Import gmap strings list.

Local Open Scope Z_scope.
Local Open Scope nat_scope.

(** ** JavaScript string primitives *)

Module Js.

Definition TAB : ascii := "009"%char.
Definition LF : ascii := "010"%char.
Definition CR : ascii := "013"%char.
Definition SPACE : ascii := " "%char.

(** [\s], and the characters removed by [trim]. *)
Definition isWhiteSpace (c : ascii) : bool :=
  match c with
  | "009" | "010" | "011" | "012" | "013" | " " | "160" => true
  | _ => false
  end%char.

(** [\d] *)
Definition isDigit (c : ascii) : bool :=
  match c with
  | "0" | "1" | "2" | "3" | "4" | "5" | "6" | "7" | "8" | "9" => true
  | _ => false
  end%char.

(** Truthiness of a string value: the empty string is falsy. *)
Definition truthy (s : string) : bool :=
  match s with "" => false | String _ _ => true end.

(** [a || b] on strings. *)
Definition or (a b : string) : string := if truthy a then a else b.

(** [s.includes(c)] for a one-character needle. *)
Fixpoint includes (c : ascii) (s : string) : bool :=
  match s with
  | "" => false
  | String a s' => if decide (a = c) then true else includes c s'
  end.

Fixpoint all (p : ascii -> bool) (s : string) : bool :=
  match s with
  | "" => true
  | String a s' => p a && all p s'
  end.

(** [/^\d+$/.test(s)] *)
Definition allDigits (s : string) : bool := truthy s && all isDigit s.

Fixpoint trimStart (s : string) : string :=
  match s with
  | "" => ""
  | String a s' => if isWhiteSpace a then trimStart s' else s
  end.

Fixpoint trimEnd (s : string) : string :=
  match s with
  | "" => ""
  | String a s' =>
      match trimEnd s' with
      | "" => if isWhiteSpace a then "" else String a ""
      | r => String a r
      end
  end.

Definition trim (s : string) : string := trimEnd (trimStart s).

(** [s.replace(/(\r\n|\n|\r)/gm, "")]: every match of the alternation
    is deleted, scanning left to right. *)
Fixpoint stripLineBreaks (s : string) : string :=
  match s with
  | "" => ""
  | String a s' =>
      if decide (a = CR) then
        match s' with
        | String b s'' =>
            if decide (b = LF) then stripLineBreaks s''
            else stripLineBreaks s'
        | "" => ""
        end
      else if decide (a = LF) then stripLineBreaks s'
      else String a (stripLineBreaks s')
  end.

(** Puts [a] in front of the token under construction. *)
Definition consHead (a : ascii) (toks : list string) : list string :=
  match toks with
  | [] => [String a ""]
  | t :: ts => String a t :: ts
  end.

(** [s.split(c)] for a one-character separator: every occurrence
    separates, so empty tokens are kept. *)
Fixpoint splitChar (c : ascii) (s : string) : list string :=
  match s with
  | "" => [""]
  | String a s' =>
      if decide (a = c) then "" :: splitChar c s'
      else consHead a (splitChar c s')
  end.

(** [s.split(/\s+/)]: a maximal run of white space is one separator;
    [skip] says that the scan is inside such a run.  A leading or a
    trailing run yields an empty first or last token, and the empty
    string yields one empty token. *)
Fixpoint splitWsFrom (skip : bool) (s : string) : list string :=
  match s with
  | "" => [""]
  | String a s' =>
      if isWhiteSpace a then
        if skip then splitWsFrom true s' else "" :: splitWsFrom true s'
      else consHead a (splitWsFrom false s')
  end.

Definition splitWs (s : string) : list string := splitWsFrom false s.

(** [parts.join(sep)] *)
Definition join (sep : string) (parts : list string) : string :=
  String.concat sep parts.

(** [s.substring(0, n)] *)
Definition substring0 (n : nat) (s : string) : string :=
  String.substring 0 n s.

End Js.

(** ** Schema *)

Definition FRC_COLUMNS : list string :=
  [ "scouterName"; "eventCode"; "matchLevel"; "matchNumber"; "robotPosition";
    "teamNumber";
    "autoLeave"; "autoFuel"; "autoTower";
    "teleFuel"; "teleTower";
    "defenseRating"; "driverRating"; "speedRating";
    "defendedBy"; "robotDied"; "tippedOver";
    "comments" ].

(** ** Field parser *)

(** The test [curr === 'Level' && next && /^\d+$/.test(next)], where [next]
    is [parts[i + 1]] and is [undefined] past the end. *)
Definition levelSplit (curr : string) (next : option string) : bool :=
  match next with
  | Some n => bool_decide (curr = "Level") && Js.truthy n && Js.allDigits n
  | None => false
  end.

(** The [for] loop of [fixSplitData].  [fuel] bounds the number of
    iterations; the loop leaves when [i] reaches [parts.length], that is
    when [parts !! i] is [None].  Where the test holds [next] is a string,
    so the [default] of the merged token is never used. *)
Fixpoint fixSplitData_loop (fuel : nat) (parts : list string) (i : nat)
    (newParts : list string) : list string :=
  match fuel with
  | 0 => newParts
  | S fuel' =>
      match parts !! i with
      | None => newParts
      | Some curr =>
          let next := parts !! (i + 1) in
          if levelSplit curr next then
            fixSplitData_loop fuel' parts (i + 1 + 1)
              (newParts ++ [curr +:+ " " +:+ default "" next])
          else
            fixSplitData_loop fuel' parts (i + 1) (newParts ++ [curr])
      end
  end.

Definition fixSplitData (parts : list string) : list string :=
  fixSplitData_loop (length parts) parts 0 [].

(** The token list [parts] of [parseFrcData], and the delimiter test
    [trimmed.includes('\t')] that the function evaluates twice. *)
Definition isTsv (raw : string) : bool := Js.includes Js.TAB (Js.trim raw).

Definition parseParts (raw : string) : list string :=
  let trimmed := Js.trim raw in
  if Js.includes Js.TAB trimmed then Js.splitChar Js.TAB trimmed
  else fixSplitData (Js.splitWs trimmed).

(** One call of the [forEach] callback: [data] is the object under
    construction.  The guard [index < parts.length] is the case
    [parts !! index = Some _]. *)
Definition assignColumn (tsv : bool) (parts : list string)
    (data : gmap string string) (index : nat) (col : string)
    : gmap string string :=
  match parts !! index with
  | Some tok =>
      if bool_decide (index = length FRC_COLUMNS - 1) then
        if tsv then <[col := Js.or tok ""]> data
        else <[col := Js.join " " (drop index parts)]> data
      else <[col := tok]> data
  | None => data
  end.

Fixpoint forEachColumn (tsv : bool) (parts : list string)
    (data : gmap string string) (index : nat) (cols : list string)
    : gmap string string :=
  match cols with
  | [] => data
  | col :: cols' =>
      forEachColumn tsv parts (assignColumn tsv parts data index col)
        (index + 1) cols'
  end.

Definition parseFrcData (raw : string) : gmap string string :=
  forEachColumn (isTsv raw) (parseParts raw) ∅ 0 FRC_COLUMNS.

(** ** Record store *)

Inductive Status := pending | sending | sent | error.

#[global] Instance Status_eq_dec : EqDecision Status.
Proof. solve_decision. Defined.

Module Rec.

Record ScanRecord := mkScanRecord {
  id : Z;
  timestamp : string;
  raw : string;
  parsed : option (gmap string string);
  displayData : string;
  status : Status;
  errorMsg : option string
}.

End Rec.
Export Rec.

(** The store [scanHistory]: most recent record first. *)
Abbreviation Store := (list ScanRecord).

(** ** Dedup index *)

(** A property read [parsed.k] is [undefined] when the key is absent. *)
Definition truthyField (v : option string) : bool :=
  match v with Some s => Js.truthy s | None => false end.

(** [v || ''] *)
Definition orEmpty (v : option string) : string :=
  match v with Some s => Js.or s "" | None => "" end.

(** A value interpolated in a template literal. *)
Definition interpolate (v : option string) : string := default "undefined" v.

Definition generateRecordKey (parsed : option (gmap string string))
    (raw : string) : string :=
  match parsed with
  | Some p =>
      if truthyField (p !! "matchNumber") && truthyField (p !! "teamNumber")
         && truthyField (p !! "scouterName")
      then
        orEmpty (p !! "eventCode") +:+ "-" +:+ orEmpty (p !! "matchLevel")
          +:+ "-" +:+ interpolate (p !! "matchNumber")
          +:+ "-" +:+ interpolate (p !! "teamNumber")
          +:+ "-" +:+ interpolate (p !! "scouterName")
      else Js.substring0 100 raw
  | None => Js.substring0 100 raw
  end.

Definition isDuplicateRecord (scanHistory : Store)
    (parsed : option (gmap string string)) (raw : string)
    : option ScanRecord :=
  let newKey := generateRecordKey parsed raw in
  List.find
    (fun record =>
       let existingKey := generateRecordKey record.(Rec.parsed) record.(Rec.raw) in
       bool_decide (existingKey = newKey))
    scanHistory.

(** ** Environment *)

(** What a call of [LZString.decompressFromBase64] does: it throws, or it
    returns a string or [null]. *)
Inductive Decompressed :=
  | Threw
  | Returned (v : option string).

Record Env := mkEnv {
  scriptUrl : string;
  useLZ : bool;
  (** [window.LZString], absent when the library did not load *)
  LZString : option (string -> Decompressed)
}.

Record Clock := mkClock {
  now : Z;                    (* Date.now() *)
  localeTimeString : string;  (* new Date().toLocaleTimeString() *)
  localeString : string       (* new Date().toLocaleString() *)
}.

(** How the promise of [fetch] settles; the rejection carries [e.message]. *)
Inductive FetchOutcome :=
  | Resolved
  | Rejected (message : option string).

(** The form fields of the request.  [jsonCols] is sent as the base64 text
    of the JSON array; the array itself stands for it here.  On strings of
    code units below 256 that encoding does not throw. *)
Record Params := mkParams {
  p_timestamp : string;
  p_raw : string;
  p_jsonCols : list string
}.

(** The [type] of a notification; [failure] is the source's ['error']. *)
Inductive ToastKind := success | warning | failure.

(** What the handlers do, in program order. *)
Inductive Effect :=
  | ShowToast (kind : ToastKind)
  | Prepend (newRecord : ScanRecord)
      (* setScanHistory(prev => [newRecord, ...prev]) *)
  | UpdateRecordStatus (rid : Z) (st : Status) (msg : option string)
      (* updateRecordStatus(id, status, errorMsg) *)
  | Fetch (url : string) (params : Params).

(** [{ ...r, status, errorMsg }] *)
Definition withStatus (r : ScanRecord) (st : Status) (msg : option string)
    : ScanRecord :=
  mkScanRecord r.(id) r.(timestamp) r.(raw) r.(parsed) r.(displayData) st msg.

Definition updateRecordStatus (rid : Z) (st : Status) (msg : option string)
    (prev : Store) : Store :=
  map (fun r => if bool_decide (r.(id) = rid) then withStatus r st msg else r)
      prev.

Definition updateComment (rid : Z) (newComment : string) (prev : Store)
    : Store :=
  map (fun r =>
         if bool_decide (r.(id) = rid) then
           mkScanRecord r.(id) r.(timestamp) r.(raw)
             ((fun p => <["comments" := newComment]> p) <$> r.(parsed))
             r.(displayData) r.(status) r.(errorMsg)
         else r)
      prev.

Definition applyEffect (e : Effect) (store : Store) : Store :=
  match e with
  | Prepend newRecord => newRecord :: store
  | UpdateRecordStatus rid st msg => updateRecordStatus rid st msg store
  | ShowToast _ | Fetch _ _ => store
  end.

Definition run (es : list Effect) (store : Store) : Store :=
  foldl (fun s e => applyEffect e s) store es.

(** ** Upload dispatcher *)

(** The [cols] array of [uploadData]. *)
Definition uploadCols (record : ScanRecord) : list string :=
  match record.(parsed) with
  | Some p => map (fun key => default "" (p !! key)) FRC_COLUMNS
  | None => fixSplitData (Js.splitWs (Js.trim record.(raw)))
  end.

Definition simulatedRaw (record : ScanRecord) : string :=
  Js.join " " (uploadCols record).

Definition uploadParams (clock : Clock) (record : ScanRecord) : Params :=
  mkParams clock.(localeString) (simulatedRaw record) (uploadCols record).

Definition uploadData (env : Env) (clock : Clock) (record : ScanRecord)
    (outcome : FetchOutcome) : list Effect :=
  if negb (Js.truthy env.(scriptUrl)) then []
  else
    [ UpdateRecordStatus record.(id) sending None;
      Fetch env.(scriptUrl) (uploadParams clock record);
      match outcome with
      | Resolved => UpdateRecordStatus record.(id) sent None
      | Rejected message =>
          UpdateRecordStatus record.(id) error
            (Some (match message with
                   | Some m => Js.or m "Network Error"
                   | None => "Network Error"
                   end))
      end ].

(** [retryPending], with [confirm n] the answer to the dialog that names [n]
    records.  [pending.forEach(r => uploadData(r))] starts one dispatch for
    each selected record, and each dispatch is an asynchronous task of its
    own: the result lists, in the order of the calls, the record passed to
    [uploadData] together with the effects of that call in its program
    order.  [clockAt i] is the clock that the call number [i] reads and
    [outcomeAt i] the way its request settles. *)
Definition retryPending (env : Env) (clockAt : nat -> Clock)
    (outcomeAt : nat -> FetchOutcome) (scanHistory : Store)
    (confirm : nat -> bool) : list (ScanRecord * list Effect) :=
  let pending :=
    List.filter
      (fun r => bool_decide (r.(status) = pending)
                || bool_decide (r.(status) = error))
      scanHistory in
  if bool_decide (length pending = 0) then []
  else if confirm (length pending) then
    imap (fun i r => (r, uploadData env (clockAt i) r (outcomeAt i))) pending
  else [].

(** ** Ingestion *)

Definition normalizedData (data : string) : string :=
  Js.stripLineBreaks (Js.trim data).

Definition processedData (env : Env) (data : string) : string :=
  let normalizedData := normalizedData data in
  match env.(LZString) with
  | Some decompressFromBase64 =>
      match decompressFromBase64 normalizedData with
      | Returned (Some decompressed) =>
          if Js.truthy decompressed then
            let rawHasSpaces := Js.includes Js.SPACE normalizedData in
            let decompressedHasSpaces := Js.includes Js.SPACE decompressed in
            if env.(useLZ) || (negb rawHasSpaces && decompressedHasSpaces)
            then decompressed
            else normalizedData
          else normalizedData
      | Returned None => normalizedData
      | Threw => normalizedData
      end
  | None => normalizedData
  end.

(** The [preview] string.  The comment marker is kept as the bytes of its
    source text; nothing measures it. *)
Definition preview (parsed : gmap string string) (processedData : string)
    : string :=
  if truthyField (parsed !! "scouterName")
     && truthyField (parsed !! "matchNumber")
     && truthyField (parsed !! "teamNumber")
  then
    let base :=
      interpolate (parsed !! "scouterName") +:+ " | "
        +:+ interpolate (parsed !! "matchLevel")
        +:+ interpolate (parsed !! "matchNumber")
        +:+ " | T:" +:+ interpolate (parsed !! "teamNumber") in
    match parsed !! "comments" with
    | Some comments =>
        if Js.truthy comments then
          let shortComment :=
            if bool_decide (8 < String.length comments)
            then Js.substring0 8 comments +:+ ".."
            else comments in
          base +:+ " | 💬 " +:+ shortComment
        else base
    | None => base
    end
  else
    if bool_decide (50 < String.length processedData)
    then Js.substring0 50 processedData +:+ "..."
    else processedData.

Definition newRecord (env : Env) (clock : Clock) (data : string)
    : ScanRecord :=
  let processedData := processedData env data in
  let parsed := parseFrcData processedData in
  mkScanRecord clock.(now) clock.(localeTimeString) processedData
    (Some parsed) (preview parsed processedData) pending None.

(** [handleScan data], where [scanHistory] is the history that the
    callback closes over. *)
Definition handleScan (env : Env) (clock : Clock) (scanHistory : Store)
    (data : string) (outcome : FetchOutcome) : list Effect :=
  let processedData := processedData env data in
  let parsed := parseFrcData processedData in
  match isDuplicateRecord scanHistory (Some parsed) processedData with
  | Some existingRecord => [ShowToast warning]
  | None =>
      let newRecord := newRecord env clock data in
      [ShowToast success; Prepend newRecord]
        ++ uploadData env clock newRecord outcome
  end.

(** ** Settings *)

Definition DEFAULT_SCRIPT_URL : string :=
  "https://script.google.com/macros/s/AKfycbxvZZdYPFmvdZLgx1lM0VZru9S7xgRaViI3KOdljZDVqL05aBIgBJ84Pnb6WVhD5oky/exec".

(** [s.startsWith(p)] *)
Definition startsWith (p s : string) : bool := String.prefix p s.

(** The two settings kept in component state. *)
Record Settings := mkSettings {
  st_scriptUrl : string;
  st_useLZ : bool
}.

(** The two settings entries of [localStorage]; [None] is a key that was
    never written ([getItem] returns [null]). *)
Record LocalStorage := mkLocalStorage {
  frc_script_url : option string;
  frc_use_lz : option string
}.

(** [String(b)] *)
Definition stringOfBool (b : bool) : string := if b then "true" else "false".

(** [saveSettings]: the new settings and storage, or [None] when the alert
    is raised and the function returns without storing anything. *)
Definition saveSettings (st : Settings) (storage : LocalStorage)
    : option (Settings * LocalStorage) :=
  let cleanUrl := Js.trim st.(st_scriptUrl) in
  if Js.truthy cleanUrl && negb (startsWith "http" cleanUrl) then None
  else
    Some (mkSettings cleanUrl st.(st_useLZ),
          mkLocalStorage (Some cleanUrl) (Some (stringOfBool st.(st_useLZ)))).

(** The settings part of the initialization effect, starting from the
    initial state [useState(DEFAULT_SCRIPT_URL)], [useState(false)]. *)
Definition initSettings (storage : LocalStorage) : Settings :=
  let savedUrl := storage.(frc_script_url) in
  let savedLZ := bool_decide (storage.(frc_use_lz) = Some "true") in
  mkSettings
    (match savedUrl with
     | Some url => if Js.truthy url then url else DEFAULT_SCRIPT_URL
     | None => DEFAULT_SCRIPT_URL
     end)
    (if savedLZ then savedLZ else false).

(** [clearHistory], given the answer to its dialog. *)
Definition clearHistory (confirmed : bool) (prev : Store) : Store :=
  if confirmed then [] else prev.

(** ** Receiving script

    The function [doPost] in the text of [GAS_SCRIPT_TEMPLATE], up to the
    row that it appends.  The request parameters are optional strings.
    [jsonCols] is absent (or empty), or its decoding throws, or it decodes
    to an array, taken here to be an array of strings. *)

Inductive JsonCols :=
  | NoJsonCols
  | BadJsonCols
  | JsonArray (cols : list string).

(** [fixFrcSplit]: the loop of [fixSplitData], in the script's text. *)
Definition fixFrcSplit (arr : list string) : list string :=
  fixSplitData_loop (length arr) arr 0 [].

(** [raw ? raw.trim().split(/\s+/) : []] *)
Definition rawCols (raw : option string) : list string :=
  match raw with
  | Some text => if Js.truthy text then Js.splitWs (Js.trim text) else []
  | None => []
  end.

(** The array [cols] when the row is built. *)
Definition doPostCols (raw : option string) (jsonCols : JsonCols)
    : list string :=
  let cols :=
    match jsonCols with
    | JsonArray decoded => decoded
    | BadJsonCols => rawCols raw
    | NoJsonCols => rawCols raw
    end in
  let cols :=
    if bool_decide (length FRC_COLUMNS < length cols) then fixFrcSplit cols
    else cols in
  if bool_decide (length FRC_COLUMNS < length cols) then
    let commentStartIndex := length FRC_COLUMNS - 1 in
    let commentParts := drop commentStartIndex cols in
    let combinedComment := Js.join " " commentParts in
    take commentStartIndex cols ++ [combinedComment]
  else cols.

(** [rowData]: a cell is [None] where the script pushes [undefined]. *)
Definition doPostRow (timestamp raw : option string) (jsonCols : JsonCols)
    : list (option string) :=
  let cols := doPostCols raw jsonCols in
  if bool_decide (0 < length cols) then timestamp :: map Some cols
  else [timestamp; raw].

(** The request parameters as the script sees them for a request that
    [uploadData] sent, the base64 and JSON coding being undone. *)
Definition received (params : Params)
    : option string * option string * JsonCols :=
  (Some params.(p_timestamp), Some params.(p_raw),
   JsonArray params.(p_jsonCols)).

(** ** Reference definitions

    Functions and predicates that the statements below use: the
    recursive forms against which the loops are checked, the wording of the
    specification where it differs from the code, and measures on the
    store. *)

(** [fixSplitData] as a recursion on the token list: the reference
    against which the index loop is checked. *)
Fixpoint fixTokens (parts : list string) : list string :=
  match parts with
  | [] => []
  | curr :: rest =>
      match rest with
      | next :: rest' =>
          if levelSplit curr (Some next)
          then (curr +:+ " " +:+ next) :: fixTokens rest'
          else curr :: fixTokens rest
      | [] => [curr]
      end
  end.

(** The value that the [forEach] callback stores for the column at
    [index], if it stores one. *)
Definition fieldValue (tsv : bool) (parts : list string) (index : nat)
    : option string :=
  match parts !! index with
  | Some tok =>
      Some (if bool_decide (index = 17) then
              if tsv then tok else Js.join " " (drop index parts)
            else tok)
  | None => None
  end.

(** [m] spaces. *)
Fixpoint spaces (m : nat) : string :=
  match m with 0 => "" | S m' => String Js.SPACE (spaces m') end.

(** A string that does not begin with white space. *)
Definition headOk (s : string) : Prop :=
  match s with "" => True | String a _ => Js.isWhiteSpace a = false end.

(** The identity key of a stored record. *)
Definition keyOf (r : ScanRecord) : string :=
  generateRecordKey r.(parsed) r.(raw).

(** The number of stored records with the key [k]. *)
Definition countKey (k : string) (store : Store) : nat :=
  length (List.filter (fun r => bool_decide (keyOf r = k)) store).

(** The identity key of the candidate that [handleScan] builds from a
    payload. *)
Definition candidateKey (env : Env) (data : string) : string :=
  generateRecordKey (Some (parseFrcData (processedData env data)))
    (processedData env data).

(** The key as the specification words it: the plain concatenation of the
    five components. *)
Definition generateRecordKey_spec (parsed : option (gmap string string))
    (raw : string) : string :=
  match parsed with
  | Some p =>
      if truthyField (p !! "matchNumber") && truthyField (p !! "teamNumber")
         && truthyField (p !! "scouterName")
      then
        orEmpty (p !! "eventCode") +:+ orEmpty (p !! "matchLevel")
          +:+ interpolate (p !! "matchNumber")
          +:+ interpolate (p !! "teamNumber")
          +:+ interpolate (p !! "scouterName")
      else Js.substring0 100 raw
  | None => Js.substring0 100 raw
  end.

(** The non-empty text that decompression yields, if it yields one. *)
Definition decompressedText (env : Env) (text : string) : option string :=
  match env.(LZString) with
  | Some decompressFromBase64 =>
      match decompressFromBase64 text with
      | Returned (Some decompressed) =>
          if Js.truthy decompressed then Some decompressed else None
      | Returned None | Threw => None
      end
  | None => None
  end.

(** [/\s/.test(s)]: the text contains white space of any kind. *)
Fixpoint hasWhiteSpace (s : string) : bool :=
  match s with
  | "" => false
  | String a s' => Js.isWhiteSpace a || hasWhiteSpace s'
  end.

(** The normalizer as the specification words it: the heuristic compares
    the presence of white space. *)
Definition processedData_spec (env : Env) (data : string) : string :=
  let original := normalizedData data in
  match decompressedText env original with
  | Some decompressed =>
      if env.(useLZ)
         || (negb (hasWhiteSpace original) && hasWhiteSpace decompressed)
      then decompressed
      else original
  | None => original
  end.

(** The selection predicate of [retryPending]. *)
Definition retryable (r : ScanRecord) : bool :=
  bool_decide (r.(status) = pending) || bool_decide (r.(status) = error).

(** [errorMsg] is present exactly on records in status [error], and is
    then not empty. *)
Definition statusMsgOk (r : ScanRecord) : Prop :=
  match r.(errorMsg) with
  | Some m => r.(status) = error /\ m <> ""
  | None => r.(status) <> error
  end.

(** The fields of a record that only ingestion sets. *)
Definition payloadOf (r : ScanRecord)
    : Z * string * string * option (gmap string string) * string :=
  (r.(id), r.(timestamp), r.(raw), r.(parsed), r.(displayData)).

(** The characters of [s] that satisfy [p], in order. *)
Fixpoint keep (p : ascii -> bool) (s : string) : string :=
  match s with
  | "" => ""
  | String a s' => if p a then String a (keep p s') else keep p s'
  end.

Definition notLineBreak (a : ascii) : bool :=
  negb (bool_decide (a = Js.CR)) && negb (bool_decide (a = Js.LF)).

(** The text contains no hyphen. *)
Definition hyphenFree (s : string) : bool := negb (Js.includes "-"%char s).

(** A token as the white-space split produces them: not empty and free
    of white space. *)
Definition isWord (tok : string) : Prop :=
  Js.truthy tok = true /\ hasWhiteSpace tok = false.

(** * Properties *)

(** ** The token repair *)

Lemma fixSplitData_loop_spec fuel : forall parts i newParts,
  length parts - i <= fuel ->
  fixSplitData_loop fuel parts i newParts
  = newParts ++ fixTokens (drop i parts).
Proof.
  induction fuel as [|fuel IH]; intros parts i acc Hfuel; simpl.
  - rewrite drop_ge by lia. by rewrite app_nil_r.
  - destruct (parts !! i) as [curr|] eqn:Hcurr.
    + pose proof (lookup_lt_Some _ _ _ Hcurr) as Hlt.
      rewrite (drop_S _ _ _ Hcurr).
      replace (i + 1) with (S i) by lia.
      destruct (parts !! S i) as [next|] eqn:Hnext.
      * pose proof (lookup_lt_Some _ _ _ Hnext) as Hlt'.
        rewrite (drop_S _ _ _ Hnext). cbn [fixTokens default].
        destruct (levelSplit curr (Some next)).
        -- rewrite IH by lia. replace (S i + 1) with (S (S i)) by lia.
           by rewrite <- app_assoc.
        -- rewrite IH by lia. rewrite (drop_S _ _ _ Hnext).
           by rewrite <- app_assoc.
      * cbn [levelSplit]. rewrite IH by lia.
        apply lookup_ge_None in Hnext.
        rewrite drop_ge by lia. by rewrite <- app_assoc.
    + apply lookup_ge_None in Hcurr. rewrite drop_ge by lia.
      by rewrite app_nil_r.
Qed.

Lemma fixSplitData_fixTokens parts : fixSplitData parts = fixTokens parts.
Proof.
  unfold fixSplitData. rewrite fixSplitData_loop_spec by lia.
  by rewrite drop_0.
Qed.

Lemma allDigits_truthy n : Js.allDigits n = true -> Js.truthy n = true.
Proof. unfold Js.allDigits. by intros [? _]%andb_true_iff. Qed.

Lemma levelSplit_digits curr next :
  levelSplit curr (Some next) = true -> Js.allDigits next = true.
Proof. cbn. by intros [_ ?]%andb_true_iff. Qed.

Lemma levelSplit_Level n :
  Js.allDigits n = true -> levelSplit "Level" (Some n) = true.
Proof.
  intros Hn. cbn [levelSplit]. rewrite Hn, (allDigits_truthy _ Hn).
  by rewrite bool_decide_eq_true_2.
Qed.

(** A token that is not purely numeric is never consumed by the token
    before it, so the repair of a list splits at such a token. *)
Lemma fixTokens_app pre x post :
  Js.allDigits x = false ->
  fixTokens (pre ++ x :: post) = fixTokens pre ++ fixTokens (x :: post).
Proof.
  intros Hx.
  cut (fixTokens (pre ++ x :: post) = fixTokens pre ++ fixTokens (x :: post)
       /\ forall a, fixTokens (a :: pre ++ x :: post)
                    = fixTokens (a :: pre) ++ fixTokens (x :: post)).
  { by intros [? _]. }
  induction pre as [|b pre [IH1 IH2]].
  - split; [done|]. intros a. cbn [app].
    change (fixTokens (a :: x :: post))
      with (if levelSplit a (Some x)
            then (a +:+ " " +:+ x) :: fixTokens post
            else a :: fixTokens (x :: post)).
    destruct (levelSplit a (Some x)) eqn:Hl; [|done].
    apply levelSplit_digits in Hl. congruence.
  - split; [apply IH2|]. intros a.
    change (fixTokens (a :: (b :: pre) ++ x :: post))
      with (if levelSplit a (Some b)
            then (a +:+ " " +:+ b) :: fixTokens (pre ++ x :: post)
            else a :: fixTokens (b :: pre ++ x :: post)).
    change (fixTokens (a :: b :: pre))
      with (if levelSplit a (Some b)
            then (a +:+ " " +:+ b) :: fixTokens pre
            else a :: fixTokens (b :: pre)).
    destruct (levelSplit a (Some b)).
    + by rewrite IH1.
    + by rewrite IH2.
Qed.

Lemma fixTokens_Level n post :
  Js.allDigits n = true ->
  fixTokens ("Level" :: n :: post) = ("Level" +:+ " " +:+ n) :: fixTokens post.
Proof.
  intros Hn.
  change (fixTokens ("Level" :: n :: post))
    with (if levelSplit "Level" (Some n)
          then ("Level" +:+ " " +:+ n) :: fixTokens post
          else "Level" :: fixTokens (n :: post)).
  by rewrite levelSplit_Level.
Qed.

Lemma fixSplitData_merge pre n post :
  Js.allDigits n = true ->
  fixSplitData (pre ++ "Level" :: n :: post)
  = fixSplitData pre ++ ("Level" +:+ " " +:+ n) :: fixSplitData post.
Proof.
  intros Hn. rewrite !fixSplitData_fixTokens.
  rewrite fixTokens_app by done. by rewrite fixTokens_Level.
Qed.

Lemma fixTokens_nonempty parts : parts <> [] -> fixTokens parts <> [].
Proof.
  destruct parts as [|a [|b rest]]; [done|done|]. intros _.
  change (fixTokens (a :: b :: rest))
    with (if levelSplit a (Some b)
          then (a +:+ " " +:+ b) :: fixTokens rest
          else a :: fixTokens (b :: rest)).
  by destruct (levelSplit a (Some b)).
Qed.

(** ** Column mapping *)

Lemma FRC_COLUMNS_NoDup : NoDup FRC_COLUMNS.
Proof. apply (bool_decide_unpack _). by vm_compute. Qed.

Lemma FRC_COLUMNS_length : length FRC_COLUMNS = 18.
Proof. reflexivity. Qed.

Lemma or_empty tok : Js.or tok "" = tok.
Proof. by destruct tok. Qed.

Lemma assignColumn_fieldValue tsv parts data index col :
  assignColumn tsv parts data index col
  = match fieldValue tsv parts index with
    | Some v => <[col := v]> data
    | None => data
    end.
Proof.
  unfold assignColumn, fieldValue. rewrite FRC_COLUMNS_length.
  change (18 - 1) with 17.
  destruct (parts !! index) as [tok|]; [|done].
  case_bool_decide; [|done]. destruct tsv; [|done]. by rewrite or_empty.
Qed.

Lemma forEachColumn_other tsv parts k : forall cols data index,
  k ∉ cols ->
  forEachColumn tsv parts data index cols !! k = data !! k.
Proof.
  induction cols as [|col cols IH]; intros data index Hk; [done|].
  apply not_elem_of_cons in Hk as [Hne Hk]. cbn [forEachColumn].
  rewrite IH by done. rewrite assignColumn_fieldValue.
  destruct (fieldValue tsv parts index); [|done].
  by rewrite lookup_insert_ne.
Qed.

Lemma forEachColumn_lookup tsv parts k : forall cols data index j,
  NoDup cols -> cols !! j = Some k ->
  forEachColumn tsv parts data index cols !! k
  = match fieldValue tsv parts (index + j) with
    | Some v => Some v
    | None => data !! k
    end.
Proof.
  induction cols as [|col cols IH]; intros data index j Hnd Hj; [done|].
  apply NoDup_cons in Hnd as [Hcol Hnd]. cbn [forEachColumn].
  destruct j as [|j]; simplify_eq/=.
  - rewrite forEachColumn_other by done. rewrite assignColumn_fieldValue.
    replace (index + 0) with index by lia.
    destruct (fieldValue tsv parts index); [|done].
    by rewrite lookup_insert_eq.
  - rewrite (IH _ _ j) by done.
    replace (index + 1 + j) with (index + S j) by lia.
    destruct (fieldValue tsv parts (index + S j)); [done|].
    rewrite assignColumn_fieldValue.
    destruct (fieldValue tsv parts index); [|done].
    rewrite lookup_insert_ne; [done|].
    intros ->. apply Hcol. by eapply list_elem_of_lookup_2.
Qed.

Lemma parseFrcData_lookup raw j col :
  FRC_COLUMNS !! j = Some col ->
  parseFrcData raw !! col = fieldValue (isTsv raw) (parseParts raw) j.
Proof.
  intros Hj. unfold parseFrcData.
  rewrite (forEachColumn_lookup _ _ _ _ _ _ j FRC_COLUMNS_NoDup Hj).
  cbn [Nat.add]. by destruct (fieldValue _ _ j).
Qed.

Lemma parseFrcData_lookup_other raw k :
  k ∉ FRC_COLUMNS -> parseFrcData raw !! k = None.
Proof.
  intros Hk. unfold parseFrcData. by rewrite forEachColumn_other.
Qed.

Lemma consHead_nonempty a toks : Js.consHead a toks <> [].
Proof. by destruct toks. Qed.

Lemma splitChar_nonempty c s : Js.splitChar c s <> [].
Proof.
  destruct s as [|a s]; cbn; [done|].
  case_decide; [done|apply consHead_nonempty].
Qed.

Lemma splitWsFrom_nonempty skip s : Js.splitWsFrom skip s <> [].
Proof.
  revert skip. induction s as [|a s IH]; intros skip; cbn; [done|].
  destruct (Js.isWhiteSpace a); [|apply consHead_nonempty].
  destruct skip; [apply IH|done].
Qed.

Lemma parseParts_nonempty raw : parseParts raw <> [].
Proof.
  unfold parseParts. destruct (Js.includes _ _).
  - apply splitChar_nonempty.
  - rewrite fixSplitData_fixTokens. apply fixTokens_nonempty.
    apply splitWsFrom_nonempty.
Qed.

(** ** Claims on the field parser *)

(** C3, as the code has it.  The delimiter is chosen on the trimmed text:
    when the trimmed input contains no tab, the tokens are the white-space
    split followed by the repair, and every token [Level] that is
    immediately followed by a purely numeric token is merged with it into
    one token, the numeric token being consumed; when the trimmed input
    contains a tab, the tokens are exactly the tab split, with no repair. *)
Theorem parse_delimiter_and_repair raw :
  (isTsv raw = false ->
     parseParts raw = fixSplitData (Js.splitWs (Js.trim raw))
     /\ forall pre n post,
          Js.allDigits n = true ->
          Js.splitWs (Js.trim raw) = pre ++ "Level" :: n :: post ->
          parseParts raw
          = fixSplitData pre ++ ("Level" +:+ " " +:+ n) :: fixSplitData post)
  /\ (isTsv raw = true -> parseParts raw = Js.splitChar Js.TAB (Js.trim raw)).
Proof.
  unfold isTsv, parseParts. split; intros ->; [|done].
  split; [done|]. intros pre n post Hn ->. by apply fixSplitData_merge.
Qed.

Lemma parse_delimiter_and_repair_witness :
  parseParts "Alice FRC123 Qual Level 2 5 3"
  = fixSplitData ["Alice"; "FRC123"; "Qual"]
      ++ ("Level" +:+ " " +:+ "2") :: fixSplitData ["5"; "3"].
Proof.
  apply (proj1 (parse_delimiter_and_repair "Alice FRC123 Qual Level 2 5 3")
           eq_refl); reflexivity.
Defined.

(** C3 as stated fails: this input contains a tab, yet it is split on
    white space and repaired, because the tab is trimmed away before the
    delimiter is chosen. *)
Lemma parse_tab_input_repaired :
  let raw := "Level 2 x" +:+ String Js.TAB "" in
  Js.includes Js.TAB raw = true
  /\ Js.splitWs (Js.trim raw) = ["Level"; "2"; "x"]
  /\ parseParts raw = ["Level 2"; "x"]
  /\ parseParts raw <> Js.splitChar Js.TAB raw
  /\ parseParts raw <> Js.splitChar Js.TAB (Js.trim raw)
  /\ parseFrcData raw !! "scouterName" = Some "Level 2".
Proof. by vm_compute. Qed.

(** C4, as the code has it.  Every field but the last holds the token at
    its position and is absent when there is no such token.  The last
    field, [comments], is absent as well when there is no token at its
    position; otherwise it is that token when the trimmed input contains a
    tab, and the remaining tokens joined with single spaces when it does
    not. *)
Theorem column_mapping raw :
  (forall i col,
     i < 17 -> FRC_COLUMNS !! i = Some col ->
     parseFrcData raw !! col = parseParts raw !! i)
  /\ parseFrcData raw !! "comments"
     = match parseParts raw !! 17 with
       | Some tok =>
           Some (if isTsv raw then tok
                 else Js.join " " (drop 17 (parseParts raw)))
       | None => None
       end.
Proof.
  split.
  - intros i col Hi Hcol. rewrite (parseFrcData_lookup _ i) by done.
    unfold fieldValue. destruct (parseParts raw !! i); [|done].
    by rewrite bool_decide_eq_false_2 by lia.
  - by rewrite (parseFrcData_lookup _ 17).
Qed.

Lemma column_mapping_witness :
  parseFrcData "Alice FRC123 Qual 12" !! "matchNumber"
  = parseParts "Alice FRC123 Qual 12" !! 3.
Proof.
  apply (proj1 (column_mapping "Alice FRC123 Qual 12") 3 "matchNumber");
    [lia | reflexivity].
Defined.

(** C4 as stated fails: the input contains a tab, and the comment field is
    the join of the remaining tokens, not the token at its position. *)
Lemma comments_joined_for_tab_input :
  let raw := String Js.TAB "a b c d e f g h i j k l m n o p q r s" in
  Js.includes Js.TAB raw = true
  /\ parseParts raw !! 17 = Some "r"
  /\ Js.splitChar Js.TAB raw !! 17 = None
  /\ parseFrcData raw !! "comments" = Some "r s".
Proof. by vm_compute. Qed.

(** C9.  The parser is a total function: the repair loop leaves through
    its guard within [parts.length] iterations (more fuel changes
    nothing), there is always at least one token (for a blank input, the
    empty token that [split] returns), and the keys of the result are
    exactly the first [parts.length] Schema fields; a field with no token
    at its position is an absent key. *)
Theorem parse_total_missing_absent raw :
  (forall parts fuel,
     length parts <= fuel ->
     fixSplitData_loop fuel parts 0 [] = fixSplitData parts)
  /\ 1 <= length (parseParts raw)
  /\ dom (parseFrcData raw)
     = list_to_set (take (length (parseParts raw)) FRC_COLUMNS)
  /\ (forall i col,
        FRC_COLUMNS !! i = Some col -> length (parseParts raw) <= i ->
        parseFrcData raw !! col = None)
  /\ (forall k, k ∉ FRC_COLUMNS -> parseFrcData raw !! k = None).
Proof.
  split; [|split; [|split; [|split]]].
  - intros parts fuel Hfuel. rewrite fixSplitData_fixTokens.
    rewrite fixSplitData_loop_spec by lia. by rewrite drop_0.
  - pose proof (parseParts_nonempty raw).
    destruct (parseParts raw); [done|cbn; lia].
  - apply set_eq. intros k. rewrite elem_of_dom, elem_of_list_to_set.
    rewrite list_elem_of_lookup. split.
    + intros [v Hv].
      destruct (decide (k ∈ FRC_COLUMNS)) as [Hin|Hout];
        [|by rewrite parseFrcData_lookup_other in Hv].
      apply list_elem_of_lookup in Hin as [j Hj]. exists j.
      rewrite (parseFrcData_lookup _ j) in Hv by done.
      unfold fieldValue in Hv.
      destruct (parseParts raw !! j) eqn:Hp; [|done].
      apply lookup_lt_Some in Hp. by rewrite lookup_take_lt.
    + intros [j Hj].
      destruct (decide (j < length (parseParts raw))) as [Hlt|Hge];
        [|by rewrite lookup_take_ge in Hj by lia].
      rewrite lookup_take_lt in Hj by done.
      rewrite (parseFrcData_lookup _ j) by done. unfold fieldValue.
      destruct (lookup_lt_is_Some_2 _ _ Hlt) as [tok ->]. by eexists.
  - intros i col Hcol Hlen. rewrite (parseFrcData_lookup _ i) by done.
    unfold fieldValue. by rewrite lookup_ge_None_2.
  - apply parseFrcData_lookup_other.
Qed.

Lemma parse_total_missing_absent_witness :
  parseFrcData "Alice FRC123" !! "matchLevel" = None.
Proof.
  apply (proj1 (proj2 (proj2 (proj2 (parse_total_missing_absent _)))) 2);
    [reflexivity | vm_compute; lia].
Defined.

(** ** Strings: append, join, split and trim *)

Lemma sapp_nil_l s : "" +:+ s = s.
Proof. reflexivity. Qed.

Lemma sapp_cons a s t : String a s +:+ t = String a (s +:+ t).
Proof. reflexivity. Qed.

Lemma sapp_nil_r s : s +:+ "" = s.
Proof. induction s as [|a s IH]; [done|]. by rewrite sapp_cons, IH. Qed.

Lemma sapp_assoc s t u : (s +:+ t) +:+ u = s +:+ t +:+ u.
Proof. induction s as [|a s IH]; [done|]. by rewrite !sapp_cons, IH. Qed.

Lemma join_cons sep x l :
  l <> [] -> Js.join sep (x :: l) = x +:+ sep +:+ Js.join sep l.
Proof. by destruct l. Qed.

Lemma join_consHead a toks :
  toks <> [] -> Js.join " " (Js.consHead a toks) = String a (Js.join " " toks).
Proof. destruct toks as [|t [|t' ts]]; done. Qed.

Lemma join_pad_one x m : Js.join " " (x :: replicate m "") = x +:+ spaces m.
Proof.
  revert x. induction m as [|m IH]; intros x.
  - by rewrite sapp_nil_r.
  - cbn [replicate]. rewrite join_cons by done. by rewrite IH.
Qed.

Lemma join_pad l m :
  l <> [] -> Js.join " " (l ++ replicate m "") = Js.join " " l +:+ spaces m.
Proof.
  induction l as [|x l IH]; [done|]. intros _.
  destruct l as [|y l]; [apply join_pad_one|].
  change ((x :: y :: l) ++ replicate m "")
    with (x :: (y :: l) ++ replicate m "").
  rewrite !join_cons by done. rewrite IH by done.
  by rewrite !sapp_assoc.
Qed.

Lemma join_fold_tail n : forall l,
  n < length l ->
  Js.join " " (take n l ++ [Js.join " " (drop n l)]) = Js.join " " l.
Proof.
  induction n as [|n IH]; intros l Hn; [done|].
  destruct l as [|x l]; [cbn in Hn; lia|]. cbn [length] in Hn.
  cbn [take drop app]. rewrite join_cons by (by destruct (take n l)).
  rewrite IH by lia. rewrite join_cons; [done|].
  destruct l; [cbn in Hn; lia|done].
Qed.

Lemma join_fixTokens toks : Js.join " " (fixTokens toks) = Js.join " " toks.
Proof.
  cut (Js.join " " (fixTokens toks) = Js.join " " toks
       /\ forall a, Js.join " " (fixTokens (a :: toks))
                    = Js.join " " (a :: toks)).
  { by intros [? _]. }
  induction toks as [|b toks [IH1 IH2]].
  - by split.
  - split; [apply IH2|]. intros a.
    change (fixTokens (a :: b :: toks))
      with (if levelSplit a (Some b)
            then (a +:+ " " +:+ b) :: fixTokens toks
            else a :: fixTokens (b :: toks)).
    destruct (levelSplit a (Some b)).
    + destruct toks as [|c toks].
      * reflexivity.
      * rewrite join_cons by (by apply fixTokens_nonempty).
        rewrite IH1, !(join_cons _ a), (join_cons _ b) by done.
        by rewrite !sapp_assoc.
    + rewrite join_cons by (by apply fixTokens_nonempty).
      rewrite IH2. by rewrite (join_cons _ a).
Qed.

(** Joining the white-space split with single spaces and splitting again
    gives the same tokens: every maximal run has become one space. *)
Lemma splitWs_join_split s : forall outer inner,
  (outer = true -> inner = true) ->
  Js.splitWsFrom outer (Js.join " " (Js.splitWsFrom inner s))
  = Js.splitWsFrom inner s.
Proof.
  induction s as [|a s IH]; intros outer inner Hskip.
  - by destruct outer.
  - cbn [Js.splitWsFrom]. destruct (Js.isWhiteSpace a) eqn:Ha.
    + destruct inner.
      * by apply IH.
      * destruct outer; [by specialize (Hskip eq_refl)|].
        rewrite join_cons by apply splitWsFrom_nonempty.
        rewrite sapp_nil_l.
        change (" " +:+ ?t) with (String Js.SPACE t).
        cbn [Js.splitWsFrom]. change (Js.isWhiteSpace Js.SPACE) with true.
        cbn match. by rewrite IH.
    + rewrite join_consHead by apply splitWsFrom_nonempty.
      cbn [Js.splitWsFrom]. rewrite Ha. by rewrite IH.
Qed.

Lemma includes_tab_join_split s : forall skip,
  Js.includes Js.TAB (Js.join " " (Js.splitWsFrom skip s)) = false.
Proof.
  induction s as [|a s IH]; intros skip; [done|].
  cbn [Js.splitWsFrom]. destruct (Js.isWhiteSpace a) eqn:Ha.
  - destruct skip; [apply IH|].
    rewrite join_cons by apply splitWsFrom_nonempty. rewrite sapp_nil_l.
    change (" " +:+ ?t) with (String Js.SPACE t).
    cbn [Js.includes]. rewrite decide_False by done. apply IH.
  - rewrite join_consHead by apply splitWsFrom_nonempty.
    cbn [Js.includes]. rewrite decide_False; [apply IH|].
    by intros ->.
Qed.

Lemma trimStart_headOk s : headOk (Js.trimStart s).
Proof.
  induction s as [|a s IH]; [done|]. cbn [Js.trimStart].
  by destruct (Js.isWhiteSpace a) eqn:Ha.
Qed.

Lemma trimEnd_headOk s : headOk s -> headOk (Js.trimEnd s).
Proof.
  destruct s as [|a s]; [done|]. cbn. intros Ha.
  destruct (Js.trimEnd s); [by rewrite Ha|done].
Qed.

Lemma headOk_trimStart s : headOk s -> Js.trimStart s = s.
Proof. destruct s as [|a s]; [done|]. cbn. by intros ->. Qed.

Lemma trimEnd_idem s : Js.trimEnd (Js.trimEnd s) = Js.trimEnd s.
Proof.
  induction s as [|a s IH]; [done|]. cbn [Js.trimEnd].
  destruct (Js.trimEnd s) as [|b r] eqn:E.
  - destruct (Js.isWhiteSpace a) eqn:Ha; [done|]. cbn. by rewrite Ha.
  - change (Js.trimEnd (String a (String b r)))
      with (match Js.trimEnd (String b r) with
            | "" => if Js.isWhiteSpace a then "" else String a ""
            | String c r' => String a (String c r')
            end).
    by rewrite IH.
Qed.

Lemma trimStart_spaces m : Js.trimStart (spaces m) = "".
Proof. induction m as [|m IH]; [done|]. by cbn. Qed.

Lemma trimEnd_spaces m : Js.trimEnd (spaces m) = "".
Proof. induction m as [|m IH]; [done|]. cbn. by rewrite IH. Qed.

Lemma trimEnd_pad m s :
  Js.trimEnd s = s -> Js.trimEnd (s +:+ spaces m) = s.
Proof.
  induction s as [|a s IH]; intros H.
  - apply trimEnd_spaces.
  - rewrite sapp_cons. cbn [Js.trimEnd] in *.
    destruct (Js.trimEnd s) as [|b r] eqn:E.
    + destruct (Js.isWhiteSpace a) eqn:Ha; [done|].
      injection H as Hs. subst s. by rewrite sapp_nil_l, trimEnd_spaces.
    + injection H as Hs. rewrite IH by done. by rewrite <- Hs.
Qed.

Lemma trim_headOk s : headOk (Js.trim s).
Proof. apply trimEnd_headOk, trimStart_headOk. Qed.

Lemma trim_trimEnd s : Js.trimEnd (Js.trim s) = Js.trim s.
Proof. apply trimEnd_idem. Qed.

Lemma join_split_headOk s :
  headOk s -> headOk (Js.join " " (Js.splitWs s)).
Proof.
  destruct s as [|a s]; [done|]. cbn [headOk]. intros Ha.
  unfold Js.splitWs. cbn [Js.splitWsFrom]. rewrite Ha.
  rewrite join_consHead by apply splitWsFrom_nonempty. done.
Qed.

Lemma join_split_empty s :
  Js.join " " (Js.splitWsFrom true s) = "" -> Js.trimEnd s = "".
Proof.
  induction s as [|a s IH]; [done|]. cbn [Js.splitWsFrom Js.trimEnd].
  destruct (Js.isWhiteSpace a) eqn:Ha.
  - intros H. by rewrite IH.
  - by rewrite join_consHead by apply splitWsFrom_nonempty.
Qed.

Lemma join_split_trimEnd s : forall skip,
  Js.trimEnd s = s ->
  Js.trimEnd (Js.join " " (Js.splitWsFrom skip s))
  = Js.join " " (Js.splitWsFrom skip s).
Proof.
  induction s as [|a s IH]; intros skip H; [done|].
  assert (Js.trimEnd s = s /\ (Js.isWhiteSpace a = true -> s <> "")) as [Hs Hne].
  { cbn [Js.trimEnd] in H. destruct (Js.trimEnd s) as [|b r] eqn:E.
    - destruct (Js.isWhiteSpace a); [done|]. by injection H as <-.
    - injection H as <-. done. }
  cbn [Js.splitWsFrom]. destruct (Js.isWhiteSpace a) eqn:Ha.
  - destruct skip; [by apply IH|].
    rewrite join_cons by apply splitWsFrom_nonempty. rewrite sapp_nil_l.
    change (" " +:+ ?t) with (String Js.SPACE t). cbn [Js.trimEnd].
    rewrite IH by done.
    destruct (Js.join " " (Js.splitWsFrom true s)) eqn:E; [|done].
    apply join_split_empty in E. rewrite Hs in E. by destruct Hne.
  - rewrite join_consHead by apply splitWsFrom_nonempty. cbn [Js.trimEnd].
    rewrite IH by done. rewrite Ha.
    by destruct (Js.join " " (Js.splitWsFrom false s)).
Qed.

(** Padding the joined tokens of a trimmed text with spaces and trimming
    again gives the joined tokens. *)
Lemma trim_join_split_pad s m :
  let joined := Js.join " " (Js.splitWs (Js.trim s)) in
  Js.trim (joined +:+ spaces m) = joined.
Proof.
  intros joined.
  assert (headOk joined) as Hhead by apply join_split_headOk, trim_headOk.
  assert (Js.trimEnd joined = joined) as Hend
    by apply join_split_trimEnd, trim_trimEnd.
  unfold Js.trim. destruct joined as [|a joined'] eqn:E.
  - by rewrite sapp_nil_l, trimStart_spaces.
  - rewrite headOk_trimStart by done. by apply trimEnd_pad.
Qed.

(** ** The transport columns of a parsed record *)

Lemma map_by_index {A B} (f : A -> B) (g : nat -> B) (l : list A) :
  (forall j x, l !! j = Some x -> f x = g j) ->
  map f l = map g (seq 0 (length l)).
Proof.
  intros Hfg. apply list_eq. intros j.
  change (map f l) with (f <$> l). change (map g ?k) with (g <$> k).
  rewrite !list_lookup_fmap.
  destruct (l !! j) as [x|] eqn:Hj.
  - rewrite lookup_seq_lt by (by eapply lookup_lt_Some). cbn.
    by rewrite (Hfg _ _ Hj).
  - rewrite lookup_seq_ge; [done|]. by apply lookup_ge_None.
Qed.

Lemma map_default_lookup (parts : list string) n :
  map (fun j => default "" (parts !! j)) (seq 0 n)
  = take n parts ++ replicate (n - length parts) "".
Proof.
  induction n as [|n IH]; [done|].
  rewrite seq_S, map_app, IH. cbn [map Nat.add].
  destruct (parts !! n) as [x|] eqn:Hn.
  - pose proof (lookup_lt_Some _ _ _ Hn).
    rewrite (take_S_r _ _ _ Hn).
    replace (n - length parts) with 0 by lia.
    replace (S n - length parts) with 0 by lia. cbn.
    by rewrite !app_nil_r.
  - apply lookup_ge_None in Hn.
    rewrite !take_ge by lia.
    replace (S n - length parts) with (S (n - length parts)) by lia.
    rewrite replicate_S_end. by rewrite app_assoc.
Qed.

(** The columns sent for a record whose mapping came from white-space
    delimited text: the tokens, with the overflow folded into the last
    column, or padded with empty strings up to the Schema arity. *)
Lemma columns_of_fieldValue (parts : list string) :
  parts <> [] ->
  Js.join " " (map (fun j => default "" (fieldValue false parts j)) (seq 0 18))
  = Js.join " " parts +:+ spaces (18 - length parts).
Proof.
  intros Hne. destruct (decide (length parts <= 17)) as [Hshort|Hlong].
  - rewrite (map_ext_in _ (fun j => default "" (parts !! j))).
    + rewrite map_default_lookup, take_ge by lia. by apply join_pad.
    + intros j _. unfold fieldValue.
      destruct (parts !! j) as [tok|] eqn:Hj; [|done].
      apply lookup_lt_Some in Hj. by rewrite bool_decide_eq_false_2 by lia.
  - change (seq 0 18) with (seq 0 17 ++ [17]). rewrite map_app.
    rewrite (map_ext_in _ (fun j => default "" (parts !! j)) (seq 0 17)).
    + rewrite map_default_lookup.
      replace (17 - length parts) with 0 by lia.
      replace (18 - length parts) with 0 by lia.
      cbn [replicate map spaces]. rewrite app_nil_r, sapp_nil_r.
      unfold fieldValue.
      destruct (lookup_lt_is_Some_2 parts 17 ltac:(lia)) as [tok ->].
      cbn. apply join_fold_tail. lia.
    + intros j Hj%in_seq. unfold fieldValue.
      destruct (parts !! j) as [tok|]; [|done].
      by rewrite bool_decide_eq_false_2 by lia.
Qed.

Lemma simulatedRaw_of_parsed raw r :
  isTsv raw = false ->
  r.(parsed) = Some (parseFrcData raw) ->
  simulatedRaw r
  = Js.join " " (Js.splitWs (Js.trim raw))
      +:+ spaces (18 - length (parseParts raw)).
Proof.
  intros Htsv Hparsed. unfold simulatedRaw, uploadCols. rewrite Hparsed.
  rewrite (map_by_index _
             (fun j => default "" (fieldValue false (parseParts raw) j))).
  - rewrite FRC_COLUMNS_length.
    rewrite columns_of_fieldValue by apply parseParts_nonempty.
    f_equal. unfold parseParts. unfold isTsv in Htsv. rewrite Htsv.
    by rewrite fixSplitData_fixTokens, join_fixTokens.
  - intros j col Hj. by rewrite (parseFrcData_lookup _ j), Htsv.
Qed.

Lemma reparse_simulatedRaw raw r :
  isTsv raw = false ->
  r.(parsed) = Some (parseFrcData raw) ->
  isTsv (simulatedRaw r) = false
  /\ parseParts (simulatedRaw r) = parseParts raw.
Proof.
  intros Htsv Hparsed.
  rewrite (simulatedRaw_of_parsed raw r Htsv Hparsed).
  unfold isTsv, parseParts. rewrite trim_join_split_pad.
  unfold Js.splitWs. rewrite includes_tab_join_split.
  unfold isTsv in Htsv. rewrite Htsv.
  split; [done|]. unfold Js.splitWs. by rewrite splitWs_join_split.
Qed.

(** ** Claim on the round trip through the transport text *)

(** C5, as the code has it.  For every record whose parsed mapping came
    from white-space delimited text (no tab in the trimmed text),
    re-parsing the reconstructed transport text gives the stored mapping
    again; when the tokens exceed the Schema arity, the comment field is
    the space-joined remaining tokens, before and after the round trip. *)
Theorem reparse_roundtrip raw r :
  isTsv raw = false ->
  r.(parsed) = Some (parseFrcData raw) ->
  parseFrcData (simulatedRaw r) = parseFrcData raw
  /\ (17 < length (parseParts raw) ->
      parseFrcData raw !! "comments"
      = Some (Js.join " " (drop 17 (parseParts raw)))
      /\ parseFrcData (simulatedRaw r) !! "comments"
         = Some (Js.join " " (drop 17 (parseParts raw)))).
Proof.
  intros Htsv Hparsed.
  destruct (reparse_simulatedRaw raw r Htsv Hparsed) as [Htsv' Hparts].
  assert (parseFrcData (simulatedRaw r) = parseFrcData raw) as Heq.
  { unfold parseFrcData. by rewrite Htsv', Hparts, Htsv. }
  split; [done|]. intros Hlen. rewrite Heq.
  assert (parseFrcData raw !! "comments"
          = Some (Js.join " " (drop 17 (parseParts raw)))) as ->; [|done].
  rewrite (parseFrcData_lookup _ 17) by done. unfold fieldValue.
  destruct (lookup_lt_is_Some_2 (parseParts raw) 17 Hlen) as [tok ->].
  by rewrite Htsv.
Qed.

Lemma reparse_roundtrip_witness :
  let raw := "a b c d e f g h i j k l m n o p q r s t" in
  let r := mkScanRecord 1 "10:00" raw (Some (parseFrcData raw)) "" pending
             None in
  parseFrcData (simulatedRaw r) = parseFrcData raw
  /\ (17 < length (parseParts raw) ->
      parseFrcData raw !! "comments"
      = Some (Js.join " " (drop 17 (parseParts raw)))
      /\ parseFrcData (simulatedRaw r) !! "comments"
         = Some (Js.join " " (drop 17 (parseParts raw)))).
Proof.
  intros raw r. apply (reparse_roundtrip raw r); reflexivity.
Defined.

(** C5 as stated fails for a mapping that came from tab-delimited text:
    the transport text is re-parsed on white space, so a field holding a
    space or an empty field shifts the columns, here with the same number
    of tokens before and after. *)
Lemma reparse_tab_record_differs :
  let raw := "a b" +:+ String Js.TAB (String Js.TAB "c") in
  let r := newRecord (mkEnv "" false None) (mkClock 1 "10:00" "10:00") raw in
  r.(parsed) = Some (parseFrcData raw)
  /\ parseFrcData raw !! "scouterName" = Some "a b"
  /\ parseFrcData (simulatedRaw r) !! "scouterName" = Some "a"
  /\ length (parseParts (simulatedRaw r)) = length (parseParts raw)
  /\ parseFrcData (simulatedRaw r) <> parseFrcData raw.
Proof.
  intros raw r. split_and!; [reflexivity|vm_compute; reflexivity..|].
  intros H. apply (f_equal (fun m => m !! "scouterName")) in H.
  by vm_compute in H.
Qed.

(** ** Store lemmas *)

Lemma run_app es1 es2 store : run (es1 ++ es2) store = run es2 (run es1 store).
Proof. unfold run. by rewrite foldl_app. Qed.

Lemma updateRecordStatus_lookup rid st msg store j x :
  store !! j = Some x ->
  updateRecordStatus rid st msg store !! j
  = Some (if bool_decide (x.(id) = rid) then withStatus x st msg else x).
Proof.
  intros Hj. unfold updateRecordStatus.
  change (map ?f store) with (f <$> store).
  by rewrite list_lookup_fmap, Hj.
Qed.

Lemma updateRecordStatus_ids rid st msg store :
  map id (updateRecordStatus rid st msg store) = map id store.
Proof.
  unfold updateRecordStatus. rewrite map_map. apply map_ext.
  intros r. by case_bool_decide.
Qed.

Lemma updateRecordStatus_keys rid st msg store :
  map keyOf (updateRecordStatus rid st msg store) = map keyOf store.
Proof.
  unfold updateRecordStatus. rewrite map_map. apply map_ext.
  intros r. by case_bool_decide.
Qed.

Lemma NoDup_ids_inj (store : Store) x y :
  NoDup (map id store) -> x ∈ store -> y ∈ store -> x.(id) = y.(id) -> x = y.
Proof.
  induction store as [|r store IH]; intros Hnd Hx Hy Hid.
  - by apply elem_of_nil in Hx.
  - cbn [map] in Hnd. apply NoDup_cons in Hnd as [Hr Hnd].
    assert (forall z, z ∈ store -> z.(id) <> r.(id)) as Hfresh.
    { intros z Hz Heq. apply Hr. rewrite <- Heq.
      apply list_elem_of_In, in_map, list_elem_of_In, Hz. }
    apply elem_of_cons in Hx as [->|Hx]; apply elem_of_cons in Hy as [->|Hy].
    + done.
    + by destruct (Hfresh _ Hy).
    + by destruct (Hfresh _ Hx).
    + by apply IH.
Qed.

Lemma uploadData_shape env clock r outcome :
  uploadData env clock r outcome = []
  \/ exists st msg,
       uploadData env clock r outcome
       = [ UpdateRecordStatus r.(id) sending None;
           Fetch env.(scriptUrl) (uploadParams clock r);
           UpdateRecordStatus r.(id) st msg ].
Proof.
  unfold uploadData. destruct (Js.truthy (scriptUrl env)); [right|by left].
  destruct outcome; cbn; eauto.
Qed.

Lemma run_uploadData_ids env clock r outcome store :
  map id (run (uploadData env clock r outcome) store) = map id store.
Proof.
  destruct (uploadData_shape env clock r outcome) as [->|(st & msg & ->)];
    [done|].
  unfold run. cbn [foldl applyEffect]. by rewrite !updateRecordStatus_ids.
Qed.

Lemma run_uploadData_keys env clock r outcome store :
  map keyOf (run (uploadData env clock r outcome) store) = map keyOf store.
Proof.
  destruct (uploadData_shape env clock r outcome) as [->|(st & msg & ->)];
    [done|].
  unfold run. cbn [foldl applyEffect]. by rewrite !updateRecordStatus_keys.
Qed.

Lemma countKey_map k store :
  countKey k store
  = length (List.filter (fun k' => bool_decide (k' = k)) (map keyOf store)).
Proof.
  unfold countKey. induction store as [|r store IH]; [done|]. cbn.
  destruct (bool_decide (keyOf r = k)); cbn; by rewrite IH.
Qed.

(** The dedup lookup finds a record exactly when some stored record has
    the candidate's key. *)
Lemma isDuplicateRecord_None scanHistory parsed raw :
  isDuplicateRecord scanHistory parsed raw = None
  <-> countKey (generateRecordKey parsed raw) scanHistory = 0.
Proof.
  unfold isDuplicateRecord, countKey, keyOf.
  induction scanHistory as [|r store IH]; [done|]. cbn.
  destruct (bool_decide _); cbn; [|done]. split; [done|lia].
Qed.

Lemma isDuplicateRecord_Some scanHistory parsed raw existing :
  existing ∈ scanHistory ->
  keyOf existing = generateRecordKey parsed raw ->
  is_Some (isDuplicateRecord scanHistory parsed raw).
Proof.
  intros Hin Hkey.
  destruct (isDuplicateRecord scanHistory parsed raw) eqn:E; [by eexists|].
  apply list_elem_of_In in Hin.
  pose proof (find_none _ _ E existing Hin) as Hf. cbn in Hf.
  apply bool_decide_eq_false in Hf. by destruct Hf.
Qed.

(** ** Claims on deduplication *)

Lemma truthy_ne s : s <> "" -> Js.truthy s = true.
Proof. by destruct s. Qed.

Lemma orEmpty_default v : orEmpty v = default "" v.
Proof. destruct v as [s|]; [apply or_empty|done]. Qed.

Lemma handleScan_duplicate env clock scanHistory data outcome :
  countKey (candidateKey env data) scanHistory <> 0 ->
  handleScan env clock scanHistory data outcome = [ShowToast warning].
Proof.
  intros Hdup. unfold handleScan.
  destruct (isDuplicateRecord _ _ _) eqn:E; [done|].
  by apply isDuplicateRecord_None in E.
Qed.

Lemma handleScan_fresh env clock scanHistory data outcome :
  countKey (candidateKey env data) scanHistory = 0 ->
  handleScan env clock scanHistory data outcome
  = [ShowToast success; Prepend (newRecord env clock data)]
      ++ uploadData env clock (newRecord env clock data) outcome.
Proof.
  intros Hfresh. unfold handleScan.
  by rewrite (proj2 (isDuplicateRecord_None _ _ _) Hfresh).
Qed.

Lemma run_handleScan_fresh env clock scanHistory data outcome store :
  countKey (candidateKey env data) scanHistory = 0 ->
  run (handleScan env clock scanHistory data outcome) store
  = run (uploadData env clock (newRecord env clock data) outcome)
      (newRecord env clock data :: store).
Proof. intros Hfresh. by rewrite handleScan_fresh, run_app. Qed.

(** C1, as the code has it.  With non-empty [matchNumber], [teamNumber]
    and [scouterName] the key is [eventCode], [matchLevel], [matchNumber],
    [teamNumber] and [scouterName] joined with hyphens (the empty string
    for an absent [eventCode] or [matchLevel]), so it does not depend on
    the raw text; otherwise it is the first 100 characters of the raw text.
    When a record of [scanHistory] has the candidate's key, the handler
    only raises the warning: nothing is appended to the store, whatever it
    holds, and nothing is fetched. *)
Theorem dedup_key_and_gate :
  (forall p raw m t s,
     p !! "matchNumber" = Some m -> p !! "teamNumber" = Some t ->
     p !! "scouterName" = Some s -> m <> "" -> t <> "" -> s <> "" ->
     generateRecordKey (Some p) raw
     = Js.join "-" [ default "" (p !! "eventCode");
                     default "" (p !! "matchLevel"); m; t; s ])
  /\ (forall p raw,
        truthyField (p !! "matchNumber") && truthyField (p !! "teamNumber")
          && truthyField (p !! "scouterName") = false ->
        generateRecordKey (Some p) raw = Js.substring0 100 raw)
  /\ (forall raw, generateRecordKey None raw = Js.substring0 100 raw)
  /\ (forall env clock scanHistory data outcome existing,
        existing ∈ scanHistory ->
        keyOf existing = candidateKey env data ->
        handleScan env clock scanHistory data outcome = [ShowToast warning]
        /\ forall store,
             run (handleScan env clock scanHistory data outcome) store = store).
Proof.
  split_and!.
  - intros p raw m t s Hm Ht Hs Hm' Ht' Hs'. cbn [generateRecordKey].
    rewrite Hm, Ht, Hs. cbn [truthyField interpolate default].
    rewrite !truthy_ne by done. cbn [andb].
    by rewrite !orEmpty_default.
  - intros p raw H. cbn [generateRecordKey]. by rewrite H.
  - done.
  - intros env clock scanHistory data outcome existing Hin Hkey.
    assert (countKey (candidateKey env data) scanHistory <> 0) as Hdup.
    { intros Hz. unfold candidateKey in Hz.
      apply isDuplicateRecord_None in Hz.
      destruct (isDuplicateRecord_Some scanHistory
                  (Some (parseFrcData (processedData env data)))
                  (processedData env data) existing Hin Hkey) as [x Hx].
      congruence. }
    rewrite (handleScan_duplicate _ _ _ _ _ Hdup). by split.
Qed.

Lemma dedup_key_and_gate_witness :
  let env := mkEnv "" false None in
  let data := "Al FRC qm 12 R1 254" in
  let existing := newRecord env (mkClock 1 "10:00" "10:00") data in
  handleScan env (mkClock 2 "10:01" "10:01") [existing] data Resolved
  = [ShowToast warning]
  /\ forall store,
       run (handleScan env (mkClock 2 "10:01" "10:01") [existing] data Resolved)
         store = store.
Proof.
  intros env data existing.
  apply (proj2 (proj2 (proj2 dedup_key_and_gate))
           env (mkClock 2 "10:01" "10:01") [existing] data Resolved existing);
    [apply list_elem_of_here | reflexivity].
Defined.

(** C1 as stated fails: the key is not the plain concatenation.  Two
    payloads that differ in match and team number have the same
    concatenation, but different keys, and both are stored. *)
Lemma key_is_not_concatenation :
  let env := mkEnv "" false None in
  let data1 := "Al FRC qm 1 R1 23" in
  let data2 := "Al FRC qm 12 R1 3" in
  let parsed1 := Some (parseFrcData data1) in
  let parsed2 := Some (parseFrcData data2) in
  generateRecordKey parsed1 data1 = "FRC-qm-1-23-Al"
  /\ generateRecordKey_spec parsed1 data1 = "FRCqm123Al"
  /\ generateRecordKey_spec parsed2 data2 = generateRecordKey_spec parsed1 data1
  /\ generateRecordKey parsed2 data2 <> generateRecordKey parsed1 data1
  /\ let store1 :=
       run (handleScan env (mkClock 1 "10:00" "10:00") [] data1 Resolved) [] in
     length
       (run (handleScan env (mkClock 2 "10:01" "10:01") store1 data2 Resolved)
          store1) = 2.
Proof. split_and!; vm_compute; done. Qed.

(** The frame loop [tick] puts itself in the queue again, so it keeps the
    [handleScan] of the render in which the camera was started, and that
    handler keeps the [scanHistory] of that render.  Searching that
    history, the handler does not find what it has stored since: the same
    payload is stored again. *)
Lemma stale_history_stores_again :
  let env := mkEnv "" false None in
  let data := "Al FRC qm 12 R1 254" in
  let atStart : Store := [] in
  let store1 :=
    run (handleScan env (mkClock 1 "10:00" "10:00") atStart data Resolved) [] in
  let store2 :=
    run (handleScan env (mkClock 2 "10:00" "10:00") atStart data Resolved)
      store1 in
  map raw store2 = [data; data]
  /\ countKey (candidateKey env data) store2 = 2.
Proof. split; vm_compute; reflexivity. Qed.

(** ** Claim on payload normalization *)

Lemma stripLineBreaks_clean s :
  Js.includes Js.CR (Js.stripLineBreaks s) = false
  /\ Js.includes Js.LF (Js.stripLineBreaks s) = false.
Proof.
  cut ((Js.includes Js.CR (Js.stripLineBreaks s) = false
        /\ Js.includes Js.LF (Js.stripLineBreaks s) = false)
       /\ forall a,
            Js.includes Js.CR (Js.stripLineBreaks (String a s)) = false
            /\ Js.includes Js.LF (Js.stripLineBreaks (String a s)) = false).
  { by intros [? _]. }
  induction s as [|b s [IH1 IH2]].
  - split; [done|]. intros a. cbn [Js.stripLineBreaks].
    repeat case_decide; try done.
    cbn [Js.includes]. by rewrite !decide_False by done.
  - split; [apply IH2|]. intros a.
    change (Js.stripLineBreaks (String a (String b s)))
      with (if decide (a = Js.CR) then
              if decide (b = Js.LF) then Js.stripLineBreaks s
              else Js.stripLineBreaks (String b s)
            else if decide (a = Js.LF) then Js.stripLineBreaks (String b s)
            else String a (Js.stripLineBreaks (String b s))).
    destruct (IH2 b) as [IHcr IHlf].
    repeat case_decide; try done.
    cbn [Js.includes]. by rewrite !decide_False by done.
Qed.

Lemma includes_space_hasWhiteSpace s :
  hasWhiteSpace s = false -> Js.includes Js.SPACE s = false.
Proof.
  induction s as [|a s IH]; [done|]. cbn.
  intros [Ha Hs]%orb_false_iff. case_decide as Heq; [|by apply IH].
  by rewrite Heq in Ha.
Qed.

(** C2, as the code has it.  The payload is trimmed and freed of line
    breaks.  The decompressed text replaces it exactly when decompression
    yields a non-empty text and either the forced flag is on, or the
    original contains no space character while the decompressed text
    contains one (the test is on the space character, not on white space
    in general).  In every other case, a throwing decompressor included,
    the original is kept; the function is total.  In particular an original
    without white space whose decompressed text contains a space is
    replaced with the flag off. *)
Theorem normalization_decision env data :
  let original := normalizedData data in
  original = Js.stripLineBreaks (Js.trim data)
  /\ Js.includes Js.CR original = false
  /\ Js.includes Js.LF original = false
  /\ processedData env data
     = match decompressedText env original with
       | Some decompressed =>
           if env.(useLZ)
              || (negb (Js.includes Js.SPACE original)
                  && Js.includes Js.SPACE decompressed)
           then decompressed
           else original
       | None => original
       end
  /\ (forall decompressFromBase64,
        env.(LZString) = Some decompressFromBase64 ->
        decompressFromBase64 original = Threw ->
        processedData env data = original)
  /\ (forall decompressed,
        env.(useLZ) = false ->
        decompressedText env original = Some decompressed ->
        hasWhiteSpace original = false ->
        Js.includes Js.SPACE decompressed = true ->
        processedData env data = decompressed).
Proof.
  intros original.
  assert (processedData env data
          = match decompressedText env original with
            | Some decompressed =>
                if env.(useLZ)
                   || (negb (Js.includes Js.SPACE original)
                       && Js.includes Js.SPACE decompressed)
                then decompressed
                else original
            | None => original
            end) as Hdecision.
  { unfold processedData, decompressedText. fold original.
    destruct (LZString env) as [f|]; [|done].
    destruct (f original) as [|[d|]]; [done| |done].
    by destruct (Js.truthy d). }
  split_and!; [done|apply stripLineBreaks_clean..|done| |].
  - intros f Hf Hthrew. rewrite Hdecision. unfold decompressedText.
    by rewrite Hf, Hthrew.
  - intros d Hflag Hd Hws Hsp. rewrite Hdecision, Hd, Hflag, Hsp.
    by rewrite (includes_space_hasWhiteSpace _ Hws).
Qed.

Lemma normalization_decision_witness :
  let env :=
    mkEnv "" false (Some (fun _ => Returned (Some "Al FRC qm 12 R1 254"))) in
  processedData env "IwGwOgDgQg" = "Al FRC qm 12 R1 254".
Proof.
  intros env.
  apply (proj2 (proj2 (proj2 (proj2 (proj2
           (normalization_decision env "IwGwOgDgQg"))))));
    reflexivity.
Defined.

(** C2 as stated fails: the heuristic looks for the space character only.
    A payload without white space whose decompressed text is tab-delimited
    contains white space but no space, and is kept as it was received. *)
Lemma tab_delimited_payload_not_detected :
  let decompressed := "Al" +:+ String Js.TAB ("FRC" +:+ String Js.TAB "qm") in
  let env := mkEnv "" false (Some (fun _ => Returned (Some decompressed))) in
  let data := "IwGwOgDgQg" in
  decompressedText env (normalizedData data) = Some decompressed
  /\ hasWhiteSpace (normalizedData data) = false
  /\ hasWhiteSpace decompressed = true
  /\ processedData_spec env data = decompressed
  /\ processedData env data = data
  /\ processedData env data <> processedData_spec env data.
Proof. split_and!; vm_compute; done. Qed.

(** ** Claims on dispatch and status *)

(** C6, as the code has it.  A dispatch with an endpoint configured is, in
    this order: the status update to [sending] (which also clears
    [errorMsg]), the request, and one final status update, to [sent] with
    [errorMsg] cleared when the request did not throw, and to [error] with
    a non-empty message when it threw.  Each status update, applied to the
    store as it is at that moment, rewrites every record that carries the
    dispatched record's id and leaves every record with another id as it
    was; when the ids of the store are distinct, no record other than the
    dispatched one is modified. *)
Theorem dispatch_transitions env clock r outcome :
  Js.truthy env.(scriptUrl) = true ->
  (exists st msg,
     uploadData env clock r outcome
     = [ UpdateRecordStatus r.(id) sending None;
         Fetch env.(scriptUrl) (uploadParams clock r);
         UpdateRecordStatus r.(id) st msg ]
     /\ (outcome = Resolved -> st = sent /\ msg = None)
     /\ (forall message,
           outcome = Rejected message ->
           st = error /\ exists text, msg = Some text /\ text <> ""))
  /\ (forall st msg store,
        length (applyEffect (UpdateRecordStatus r.(id) st msg) store)
        = length store
        /\ forall j x,
             store !! j = Some x ->
             applyEffect (UpdateRecordStatus r.(id) st msg) store !! j
             = Some (if bool_decide (x.(id) = r.(id))
                     then mkScanRecord x.(id) x.(timestamp) x.(raw)
                            x.(parsed) x.(displayData) st msg
                     else x))
  /\ (forall st msg store j x,
        NoDup (map id store) -> r ∈ store ->
        store !! j = Some x -> x <> r ->
        applyEffect (UpdateRecordStatus r.(id) st msg) store !! j = Some x).
Proof.
  intros Hurl. split_and!.
  - unfold uploadData. rewrite Hurl. cbn [negb].
    destruct outcome as [|message].
    + exists sent, None. split_and!; [done|done|]. by intros.
    + eexists error, _. split_and!; [done|done|].
      intros ? _. split; [done|]. eexists. split; [done|].
      destruct message as [[|a m]|]; done.
  - intros st msg store. cbn [applyEffect]. split.
    + unfold updateRecordStatus. by rewrite List.length_map.
    + intros j x Hj. by rewrite (updateRecordStatus_lookup _ _ _ _ _ _ Hj).
  - intros st msg store j x Hnd Hr Hj Hne. cbn [applyEffect].
    rewrite (updateRecordStatus_lookup _ _ _ _ _ _ Hj).
    rewrite bool_decide_eq_false_2; [done|]. intros Hid. apply Hne.
    apply (NoDup_ids_inj store); [done| |done|done].
    by eapply list_elem_of_lookup_2.
Qed.

Lemma dispatch_transitions_witness :
  let env := mkEnv "https://example.org/exec" false None in
  let r := newRecord env (mkClock 1 "10:00" "10:00") "Al FRC qm 12 R1 254" in
  exists st msg,
    uploadData env (mkClock 2 "10:01" "10:01") r (Rejected (Some "Failed"))
    = [ UpdateRecordStatus r.(id) sending None;
        Fetch env.(scriptUrl) (uploadParams (mkClock 2 "10:01" "10:01") r);
        UpdateRecordStatus r.(id) st msg ]
    /\ (Rejected (Some "Failed") = Resolved -> st = sent /\ msg = None)
    /\ (forall message,
          Rejected (Some "Failed") = Rejected message ->
          st = error /\ exists text, msg = Some text /\ text <> "").
Proof.
  intros env r.
  apply (proj1 (dispatch_transitions env (mkClock 2 "10:01" "10:01") r
                  (Rejected (Some "Failed")) eq_refl)).
Defined.

(** C6 as stated fails in its last sentence: the status update goes by id,
    so a record that shares the id of the dispatched one is modified with
    it.  Two payloads ingested at one clock reading share their id. *)
Lemma dispatch_touches_same_id :
  let off := mkEnv "" false None in
  let env := mkEnv "https://example.org/exec" false None in
  let clock := mkClock 1000 "10:00:00" "10:00:00" in
  let store1 := run (handleScan off clock [] "Al FRC qm 12 R1 254" Resolved) [] in
  let store2 :=
    run (handleScan off clock store1 "Bo FRC qm 12 R2 971" Resolved) store1 in
  let r := newRecord off clock "Al FRC qm 12 R1 254" in
  let other := newRecord off clock "Bo FRC qm 12 R2 971" in
  store2 = [other; r]
  /\ other.(raw) <> r.(raw)
  /\ map status store2 = [pending; pending]
  /\ map status (run (uploadData env clock r Resolved) store2) = [sent; sent]
  /\ run (uploadData env clock r Resolved) store2 !! 0 <> Some other.
Proof.
  intros off env clock store1 store2 r other.
  split_and!; [reflexivity|by vm_compute|reflexivity|reflexivity|].
  intros H. apply (f_equal (fmap status)) in H. by vm_compute in H.
Qed.

Lemma retryable_spec r :
  retryable r = true <-> r.(status) = pending \/ r.(status) = error.
Proof.
  unfold retryable. rewrite orb_true_iff, !bool_decide_eq_true. done.
Qed.

Lemma fst_imap_pair {A B} (f : nat -> A -> B) (l : list A) :
  map fst (imap (fun i x => (x, f i x)) l) = l.
Proof.
  apply list_eq. intros i. change (map fst ?k) with (fst <$> k).
  rewrite list_lookup_fmap, list_lookup_imap. by destruct (l !! i).
Qed.

(** Each task of a retry is the dispatch of a retryable record of the
    history. *)
Lemma retryPending_task env clockAt outcomeAt scanHistory confirm i r effects :
  retryPending env clockAt outcomeAt scanHistory confirm !! i
  = Some (r, effects) ->
  r ∈ scanHistory /\ retryable r = true
  /\ effects = uploadData env (clockAt i) r (outcomeAt i).
Proof.
  unfold retryPending. fold retryable. intros Hi.
  assert (List.filter retryable scanHistory !! i = Some r
          /\ effects = uploadData env (clockAt i) r (outcomeAt i))
    as [Hf ->].
  { case_bool_decide; [done|]. destruct (confirm _); [|done].
    rewrite list_lookup_imap in Hi.
    destruct (List.filter retryable scanHistory !! i); by simplify_eq/=. }
  apply list_elem_of_lookup_2, list_elem_of_In, filter_In in Hf as [Hin Hr].
  by apply list_elem_of_In in Hin.
Qed.

Lemma retryPending_selected env clockAt outcomeAt scanHistory confirm r :
  r ∈ map fst (retryPending env clockAt outcomeAt scanHistory confirm) ->
  r ∈ scanHistory /\ retryable r = true.
Proof.
  change (map fst ?k) with (fst <$> k).
  intros ([r' effects] & -> & [i Hi]%list_elem_of_lookup)%list_elem_of_fmap.
  by destruct (retryPending_task _ _ _ _ _ _ _ _ Hi) as (? & ? & _).
Qed.

(** Effects that do not address the id of [x] leave [x] where it is. *)
Lemma run_other_ids es : forall (store : Store) j x,
  Forall (fun e => match e with
                   | UpdateRecordStatus rid _ _ => rid <> x.(id)
                   | Fetch _ _ | ShowToast _ => True
                   | Prepend _ => False
                   end) es ->
  store !! j = Some x -> run es store !! j = Some x.
Proof.
  induction es as [|e es IH]; intros store j x Hes Hj; [done|].
  apply Forall_cons in Hes as [He Hes].
  change (run (e :: es) store) with (run es (applyEffect e store)).
  apply IH; [done|]. destruct e as [k|r|rid st msg|url params]; try done.
  cbn [applyEffect]. rewrite (updateRecordStatus_lookup _ _ _ _ _ _ Hj).
  by rewrite bool_decide_eq_false_2.
Qed.

(** C7, as the code has it.  Once the dialog is accepted, manual retry
    starts one dispatch, by its own call of [uploadData], for each record
    of the history whose status is [pending] or [error], in store order,
    and for no other record: with an endpoint configured each of these
    dispatches sets its record to [sending], issues the request and
    settles.  Accepted or not, a record whose status is [sent] or
    [sending] is never selected.  The effects of the dispatches, in
    whatever order they reach the store, leave every record as it is
    whose id is not the id of a selected record; so, when the ids of the
    history are distinct, they leave every [sent] and [sending] record as
    it is. *)
Theorem retry_selection env clockAt outcomeAt scanHistory confirm :
  let tasks := retryPending env clockAt outcomeAt scanHistory confirm in
  (confirm (length (List.filter retryable scanHistory)) = true ->
     map fst tasks = List.filter retryable scanHistory
     /\ forall r,
          r ∈ map fst tasks
          <-> r ∈ scanHistory
              /\ (r.(status) = pending \/ r.(status) = error))
  /\ (forall i r effects,
        tasks !! i = Some (r, effects) ->
        r ∈ scanHistory
        /\ (r.(status) = pending \/ r.(status) = error)
        /\ effects = uploadData env (clockAt i) r (outcomeAt i)
        /\ (Js.truthy env.(scriptUrl) = true ->
            exists st msg,
              effects
              = [ UpdateRecordStatus r.(id) sending None;
                  Fetch env.(scriptUrl) (uploadParams (clockAt i) r);
                  UpdateRecordStatus r.(id) st msg ]))
  /\ (forall r,
        r.(status) = sent \/ r.(status) = sending ->
        r ∉ map fst tasks)
  /\ (forall es (store : Store) j x,
        (forall e, e ∈ es -> exists task, task ∈ tasks /\ e ∈ snd task) ->
        (forall r, r ∈ map fst tasks -> r.(id) <> x.(id)) ->
        store !! j = Some x ->
        run es store !! j = Some x)
  /\ (forall es (store : Store) j x,
        NoDup (map id scanHistory) ->
        x ∈ scanHistory ->
        x.(status) = sent \/ x.(status) = sending ->
        (forall e, e ∈ es -> exists task, task ∈ tasks /\ e ∈ snd task) ->
        store !! j = Some x ->
        run es store !! j = Some x).
Proof.
  intros tasks.
  assert (forall es (store : Store) j x,
            (forall e, e ∈ es -> exists task, task ∈ tasks /\ e ∈ snd task) ->
            (forall r, r ∈ map fst tasks -> r.(id) <> x.(id)) ->
            store !! j = Some x ->
            run es store !! j = Some x) as Hother.
  { intros es store j x Hes Hids Hj.
    apply run_other_ids; [|done]. apply Forall_forall. intros e He.
    destruct (Hes e He) as ([r effects] & Htask & Hin). cbn [snd] in Hin.
    assert (r.(id) <> x.(id)) as Hid.
    { apply Hids. change (map fst ?k) with (fst <$> k).
      apply list_elem_of_fmap. by exists (r, effects). }
    apply list_elem_of_lookup in Htask as [i Hi].
    destruct (retryPending_task _ _ _ _ _ _ _ _ Hi) as (_ & _ & ->).
    destruct (uploadData_shape env (clockAt i) r (outcomeAt i))
      as [Hup|(st & msg & Hup)]; rewrite Hup in Hin.
    - by apply elem_of_nil in Hin.
    - repeat (apply elem_of_cons in Hin as [->|Hin]); try done.
      by apply elem_of_nil in Hin. }
  split_and!.
  - intros Hconfirm.
    assert (map fst tasks = List.filter retryable scanHistory) as Heq.
    { unfold tasks, retryPending. fold retryable. rewrite Hconfirm.
      case_bool_decide as Hlen; [|apply fst_imap_pair].
      by destruct (List.filter retryable scanHistory). }
    split; [done|]. intros r. rewrite Heq, list_elem_of_In, filter_In.
    by rewrite <- list_elem_of_In, retryable_spec.
  - intros i r effects Hi.
    destruct (retryPending_task _ _ _ _ _ _ _ _ Hi) as (Hin & Hr & ->).
    apply retryable_spec in Hr. split_and!; [done|done|done|].
    intros Hurl. unfold uploadData. rewrite Hurl. cbn [negb].
    destruct (outcomeAt i); eauto.
  - intros r Hst [_ Hr]%retryPending_selected.
    apply retryable_spec in Hr. destruct Hst, Hr; congruence.
  - exact Hother.
  - intros es store j x Hnd Hx Hst Hes Hj.
    apply Hother; [done| |done].
    intros r [Hr Hretry]%retryPending_selected Heq.
    apply retryable_spec in Hretry.
    pose proof (NoDup_ids_inj _ _ _ Hnd Hr Hx Heq) as ->.
    destruct Hst, Hretry; congruence.
Qed.

Lemma retry_selection_witness :
  let env := mkEnv "https://example.org/exec" false None in
  let r1 := mkScanRecord 1 "10:00" "a" None "a" error (Some "Network Error") in
  let r2 := mkScanRecord 2 "10:01" "b" None "b" sent None in
  let r3 := mkScanRecord 3 "10:02" "c" None "c" pending None in
  map fst
    (retryPending env (fun _ => mkClock 4 "10:03" "10:03") (fun _ => Resolved)
       [r3; r2; r1] (fun _ => true))
  = [r3; r1].
Proof.
  intros env r1 r2 r3.
  apply (proj1 (proj1 (retry_selection env (fun _ => mkClock 4 "10:03" "10:03")
                         (fun _ => Resolved) [r3; r2; r1] (fun _ => true))
                  eq_refl)).
Defined.

(** C7 as stated fails in its last part: the dispatch goes by id, so a
    [sent] record that shares its id with a selected record is rewritten by
    the retry, although it is not selected.  The two records here were
    ingested at one clock reading, the second while no endpoint was
    configured. *)
Lemma retry_rewrites_sent_record_of_same_id :
  let on := mkEnv "https://example.org/exec" false None in
  let off := mkEnv "" false None in
  let clock := mkClock 1000 "10:00:00" "10:00:00" in
  let store1 := run (handleScan on clock [] "Al FRC qm 12 R1 254" Resolved) [] in
  let store2 :=
    run (handleScan off clock store1 "Bo FRC qm 12 R2 971" Resolved) store1 in
  let tasks :=
    retryPending on (fun _ => clock) (fun _ => Rejected None) store2
      (fun _ => true) in
  map raw store2 = ["Bo FRC qm 12 R2 971"; "Al FRC qm 12 R1 254"]
  /\ map status store2 = [pending; sent]
  /\ map raw (map fst tasks) = ["Bo FRC qm 12 R2 971"]
  /\ map status (run (concat (map snd tasks)) store2) = [error; error].
Proof. split_and!; vm_compute; reflexivity. Qed.

(** C10.  With an empty endpoint URL a dispatch does nothing: no status
    update and no request, so every store is left as it is; a payload
    accepted in that configuration is stored with status [pending] and
    stays so. *)
Theorem no_endpoint_no_dispatch env clock r outcome :
  env.(scriptUrl) = "" ->
  uploadData env clock r outcome = []
  /\ (forall store, run (uploadData env clock r outcome) store = store)
  /\ (forall scanHistory data store,
        countKey (candidateKey env data) scanHistory = 0 ->
        handleScan env clock scanHistory data outcome
        = [ShowToast success; Prepend (newRecord env clock data)]
        /\ run (handleScan env clock scanHistory data outcome) store
           = newRecord env clock data :: store
        /\ (newRecord env clock data).(status) = pending
        /\ (newRecord env clock data).(errorMsg) = None).
Proof.
  intros Hurl.
  assert (forall r', uploadData env clock r' outcome = []) as Hnone.
  { intros r'. unfold uploadData. by rewrite Hurl. }
  split_and!.
  - apply Hnone.
  - intros store. by rewrite Hnone.
  - intros scanHistory data store Hfresh.
    rewrite handleScan_fresh by done. rewrite Hnone. by rewrite app_nil_r.
Qed.

Lemma no_endpoint_no_dispatch_witness :
  let env := mkEnv "" false None in
  let clock := mkClock 1 "10:00" "10:00" in
  let r := newRecord env clock "Al FRC qm 12 R1 254" in
  uploadData env clock r Resolved = [].
Proof.
  intros env clock r.
  apply (proj1 (no_endpoint_no_dispatch env clock r Resolved eq_refl)).
Defined.

(** ** Claim on record ids *)

(** C8, as the code has it.  The id of a new record is the clock reading
    taken at ingestion, and no handler ever changes an id.  An ingestion
    leaves the ids as they are or puts the reading in front of them; when
    the reading is greater than every stored id, the ids stay pairwise
    distinct and the new id is the greatest.  Nothing else makes ids
    distinct. *)
Theorem record_ids_from_clock env clock scanHistory data outcome store :
  let store' := run (handleScan env clock scanHistory data outcome) store in
  (newRecord env clock data).(id) = clock.(now)
  /\ (map id store' = map id store
      \/ map id store' = clock.(now) :: map id store)
  /\ (countKey (candidateKey env data) scanHistory = 0 ->
      map id store' = clock.(now) :: map id store)
  /\ (Forall (fun i => (i < clock.(now))%Z) (map id store) ->
      NoDup (map id store) ->
      NoDup (map id store')
      /\ Forall (fun i => (i <= clock.(now))%Z) (map id store'))
  /\ (forall rid st msg prev,
        map id (updateRecordStatus rid st msg prev) = map id prev)
  /\ (forall rid newComment prev,
        map id (updateComment rid newComment prev) = map id prev).
Proof.
  intros store'.
  assert (countKey (candidateKey env data) scanHistory = 0 ->
          map id store' = clock.(now) :: map id store) as Hfresh.
  { intros Hz. unfold store'. rewrite run_handleScan_fresh by done.
    by rewrite run_uploadData_ids. }
  assert (map id store' = map id store
          \/ map id store' = clock.(now) :: map id store) as Hids.
  { destruct (decide (countKey (candidateKey env data) scanHistory = 0))
      as [Hz|Hnz]; [right; by apply Hfresh|left].
    unfold store'. by rewrite handleScan_duplicate. }
  split_and!; [done|done|done| |apply updateRecordStatus_ids|].
  2:{ intros rid newComment prev. unfold updateComment. rewrite map_map.
      apply map_ext. intros r. by case_bool_decide. }
  intros Hlt Hnd. destruct Hids as [-> | ->].
  - split; [done|]. eapply Forall_impl; [done|]. intros i Hi. cbn in Hi. lia.
  - split.
    + apply NoDup_cons. split; [|done]. intros Hin.
      rewrite Forall_forall in Hlt. specialize (Hlt _ Hin). cbn in Hlt. lia.
    + apply Forall_cons. split; [lia|].
      eapply Forall_impl; [done|]. intros i Hi. cbn in Hi. lia.
Qed.

Lemma record_ids_from_clock_witness :
  let env := mkEnv "" false None in
  let old := newRecord env (mkClock 1000 "10:00" "10:00") "Al FRC qm 12 R1 254" in
  let store' :=
    run (handleScan env (mkClock 1016 "10:00" "10:00") [old]
           "Bo FRC qm 12 R2 971" Resolved) [old] in
  NoDup (map id store')
  /\ Forall (fun i => (i <= 1016)%Z) (map id store').
Proof.
  intros env old store'.
  apply (proj1 (proj2 (proj2 (proj2
           (record_ids_from_clock env (mkClock 1016 "10:00" "10:00") [old]
              "Bo FRC qm 12 R2 971" Resolved [old]))))).
  - repeat constructor.
  - apply NoDup_singleton.
Defined.

(** C8 as stated fails: two payloads ingested at the same clock reading
    get the same id. *)
Lemma same_reading_same_id :
  let env := mkEnv "" false None in
  let clock := mkClock 1000 "10:00:00" "10:00:00" in
  let store1 := run (handleScan env clock [] "Al FRC qm 12 R1 254" Resolved) [] in
  let store2 :=
    run (handleScan env clock store1 "Bo FRC qm 12 R2 971" Resolved) store1 in
  map id store2 = [1000%Z; 1000%Z]
  /\ map raw store2 = ["Bo FRC qm 12 R2 971"; "Al FRC qm 12 R1 254"]
  /\ ~ NoDup (map id store2).
Proof.
  split_and!; [vm_compute; reflexivity..|].
  intros Hnd. vm_compute in Hnd. apply NoDup_cons in Hnd as [Hin _].
  apply Hin. by left.
Qed.

(** * Further properties of the code *)

(** ** The token repair, continued *)

Lemma fixTokens_cons_keep a rest :
  (forall b, head rest = Some b -> levelSplit a (Some b) = false) ->
  fixTokens (a :: rest) = a :: fixTokens rest.
Proof.
  destruct rest as [|b rest]; [done|]. intros H.
  change (fixTokens (a :: b :: rest))
    with (if levelSplit a (Some b)
          then (a +:+ " " +:+ b) :: fixTokens rest
          else a :: fixTokens (b :: rest)).
  by rewrite (H b eq_refl).
Qed.

Lemma levelSplit_not_Level a next :
  a <> "Level" -> levelSplit a next = false.
Proof.
  intros Ha. destruct next as [n|]; [|done]. cbn [levelSplit].
  by rewrite bool_decide_eq_false_2.
Qed.

Lemma levelSplit_merged_next a b c :
  levelSplit b (Some c) = true -> levelSplit a (Some (b +:+ " " +:+ c)) = false.
Proof.
  cbn [levelSplit]. intros [[Hb _]%andb_true_iff _]%andb_true_iff.
  apply bool_decide_eq_true in Hb as ->.
  by rewrite !andb_false_r.
Qed.

(** The first token of a repaired list is the first token of the list,
    alone or merged with its successor. *)
Lemma fixTokens_head b rest a :
  levelSplit a (Some b) = false ->
  forall h, head (fixTokens (b :: rest)) = Some h -> levelSplit a (Some h) = false.
Proof.
  intros Hab h. destruct rest as [|c rest]; [by intros [= <-]|].
  change (fixTokens (b :: c :: rest))
    with (if levelSplit b (Some c)
          then (b +:+ " " +:+ c) :: fixTokens rest
          else b :: fixTokens (c :: rest)).
  destruct (levelSplit b (Some c)) eqn:Hbc; intros [= <-]; [|done].
  by apply levelSplit_merged_next.
Qed.

Lemma fixTokens_idem parts : fixTokens (fixTokens parts) = fixTokens parts.
Proof.
  cut (fixTokens (fixTokens parts) = fixTokens parts
       /\ forall a, fixTokens (fixTokens (a :: parts)) = fixTokens (a :: parts)).
  { by intros [? _]. }
  induction parts as [|b parts [IH1 IH2]].
  - by split.
  - split; [apply IH2|]. intros a.
    change (fixTokens (a :: b :: parts))
      with (if levelSplit a (Some b)
            then (a +:+ " " +:+ b) :: fixTokens parts
            else a :: fixTokens (b :: parts)).
    destruct (levelSplit a (Some b)) eqn:Hab.
    + rewrite fixTokens_cons_keep; [by rewrite IH1|].
      intros h _. apply levelSplit_not_Level.
      cbn [levelSplit] in Hab.
      apply andb_true_iff in Hab as [[Ha _]%andb_true_iff _].
      apply bool_decide_eq_true in Ha as ->. done.
    + rewrite fixTokens_cons_keep; [by rewrite IH2|].
      by apply fixTokens_head.
Qed.

Lemma fixTokens_length parts : length (fixTokens parts) <= length parts.
Proof.
  cut (length (fixTokens parts) <= length parts
       /\ forall a, length (fixTokens (a :: parts)) <= S (length parts)).
  { by intros [? _]. }
  induction parts as [|b parts [IH1 IH2]].
  - split; [done|]. intros a. cbn. lia.
  - split; [apply IH2|]. intros a.
    change (fixTokens (a :: b :: parts))
      with (if levelSplit a (Some b)
            then (a +:+ " " +:+ b) :: fixTokens parts
            else a :: fixTokens (b :: parts)).
    destruct (levelSplit a (Some b)); cbn [length]; [lia|].
    specialize (IH2 b). cbn [length] in IH2. lia.
Qed.

(** X1.  The repair is idempotent: repairing repaired tokens changes
    nothing, because a merged token is not [Level] and is not numeric. *)
Theorem fixSplitData_idempotent parts :
  fixSplitData (fixSplitData parts) = fixSplitData parts.
Proof. rewrite !fixSplitData_fixTokens. apply fixTokens_idem. Qed.

(** X2.  The repair never loses or alters text: the tokens joined with
    single spaces read the same before and after, and there are never
    more tokens after than before. *)
Theorem fixSplitData_preserves_text parts :
  Js.join " " (fixSplitData parts) = Js.join " " parts
  /\ length (fixSplitData parts) <= length parts.
Proof.
  rewrite fixSplitData_fixTokens. split.
  - apply join_fixTokens.
  - apply fixTokens_length.
Qed.

Lemma fixTokens_without_Level parts :
  Forall (fun tok => tok <> "Level") parts -> fixTokens parts = parts.
Proof.
  induction 1 as [|a rest Ha _ IH]; [done|].
  rewrite fixTokens_cons_keep; [by rewrite IH|].
  intros b _. by apply levelSplit_not_Level.
Qed.

(** X3.  Tokens among which none is exactly [Level] pass the repair
    unchanged. *)
Theorem fixSplitData_without_Level parts :
  Forall (fun tok => tok <> "Level") parts -> fixSplitData parts = parts.
Proof.
  rewrite fixSplitData_fixTokens. apply fixTokens_without_Level.
Qed.

Lemma fixSplitData_without_Level_witness :
  fixSplitData ["Alice"; "FRC123"; "Qual"; "12"] = ["Alice"; "FRC123"; "Qual"; "12"].
Proof.
  apply fixSplitData_without_Level. repeat constructor; discriminate.
Defined.

(** ** Trimming *)

Lemma trim_idem s : Js.trim (Js.trim s) = Js.trim s.
Proof.
  unfold Js.trim at 1. rewrite headOk_trimStart by apply trim_headOk.
  apply trim_trimEnd.
Qed.

Lemma trimEnd_all_ws s : Js.all Js.isWhiteSpace s = true -> Js.trimEnd s = "".
Proof.
  induction s as [|a s IH]; [done|]. cbn.
  intros [Ha Hs]%andb_true_iff. by rewrite IH, Ha.
Qed.

Lemma trimStart_all_ws s : Js.all Js.isWhiteSpace s = true -> Js.trimStart s = "".
Proof.
  induction s as [|a s IH]; [done|]. cbn.
  intros [Ha Hs]%andb_true_iff. by rewrite Ha, IH.
Qed.

Lemma trimStart_ws_app pre s :
  Js.all Js.isWhiteSpace pre = true -> Js.trimStart (pre +:+ s) = Js.trimStart s.
Proof.
  induction pre as [|a pre IH]; [done|]. cbn [Js.all].
  intros [Ha Hs]%andb_true_iff. rewrite sapp_cons. cbn [Js.trimStart].
  by rewrite Ha, IH.
Qed.

Lemma trimEnd_app_ws s post :
  Js.all Js.isWhiteSpace post = true -> Js.trimEnd (s +:+ post) = Js.trimEnd s.
Proof.
  intros Hpost. induction s as [|a s IH].
  - rewrite sapp_nil_l. by apply trimEnd_all_ws.
  - rewrite sapp_cons. cbn [Js.trimEnd]. by rewrite IH.
Qed.

Lemma trimStart_app_ws s post :
  Js.all Js.isWhiteSpace post = true ->
  Js.trimEnd (Js.trimStart (s +:+ post)) = Js.trimEnd (Js.trimStart s).
Proof.
  intros Hpost. induction s as [|a s IH].
  - rewrite sapp_nil_l. by rewrite trimStart_all_ws.
  - rewrite sapp_cons. cbn [Js.trimStart].
    destruct (Js.isWhiteSpace a); [done|].
    rewrite <- sapp_cons. by apply trimEnd_app_ws.
Qed.

Lemma trim_surrounded pre s post :
  Js.all Js.isWhiteSpace pre = true -> Js.all Js.isWhiteSpace post = true ->
  Js.trim (pre +:+ s +:+ post) = Js.trim s.
Proof.
  intros Hpre Hpost. unfold Js.trim. rewrite trimStart_ws_app by done.
  by apply trimStart_app_ws.
Qed.

(** X4.  The parser does not see white space around the text, nor, in
    text without tabs, how wide the runs of white space between the tokens
    are: the text with every run replaced by one space parses to the same
    mapping. *)
Theorem parse_ignores_outer_and_run_whitespace raw :
  (forall pre post,
     Js.all Js.isWhiteSpace pre = true -> Js.all Js.isWhiteSpace post = true ->
     parseFrcData (pre +:+ raw +:+ post) = parseFrcData raw)
  /\ parseFrcData (Js.trim raw) = parseFrcData raw
  /\ (isTsv raw = false ->
      parseFrcData (Js.join " " (Js.splitWs (Js.trim raw))) = parseFrcData raw).
Proof.
  split_and!.
  - intros pre post Hpre Hpost. unfold parseFrcData, isTsv, parseParts.
    by rewrite trim_surrounded.
  - unfold parseFrcData, isTsv, parseParts. by rewrite trim_idem.
  - intros Htsv. unfold parseFrcData, isTsv, parseParts.
    pose proof (trim_join_split_pad raw 0) as Htrim. cbn zeta in Htrim.
    rewrite sapp_nil_r in Htrim. rewrite Htrim.
    unfold Js.splitWs. rewrite includes_tab_join_split.
    rewrite splitWs_join_split by done.
    unfold isTsv in Htsv. by rewrite Htsv.
Qed.

Lemma parse_ignores_outer_and_run_whitespace_witness :
  parseFrcData ("  " +:+ "Alice  FRC123   Qual" +:+ " ")
  = parseFrcData "Alice  FRC123   Qual".
Proof.
  apply (proj1 (parse_ignores_outer_and_run_whitespace "Alice  FRC123   Qual"));
    reflexivity.
Defined.

(** ** Normalization, continued *)

Lemma stripLineBreaks_keep s : Js.stripLineBreaks s = keep notLineBreak s.
Proof.
  cut (Js.stripLineBreaks s = keep notLineBreak s
       /\ forall a, Js.stripLineBreaks (String a s)
                    = keep notLineBreak (String a s)).
  { by intros [? _]. }
  induction s as [|b s [IH1 IH2]].
  - split; [done|]. intros a. cbn [Js.stripLineBreaks keep].
    unfold notLineBreak. by repeat case_decide; repeat case_bool_decide.
  - split; [apply IH2|]. intros a.
    change (Js.stripLineBreaks (String a (String b s)))
      with (if decide (a = Js.CR) then
              if decide (b = Js.LF) then Js.stripLineBreaks s
              else Js.stripLineBreaks (String b s)
            else if decide (a = Js.LF) then Js.stripLineBreaks (String b s)
            else String a (Js.stripLineBreaks (String b s))).
    change (keep notLineBreak (String a (String b s)))
      with (if notLineBreak a then String a (keep notLineBreak (String b s))
            else keep notLineBreak (String b s)).
    destruct (decide (a = Js.CR)) as [->|Hcr].
    + change (notLineBreak Js.CR) with false. cbn match.
      destruct (decide (b = Js.LF)) as [->|Hlf]; [|apply IH2].
      change (keep notLineBreak (String Js.LF s)) with (keep notLineBreak s).
      apply IH1.
    + destruct (decide (a = Js.LF)) as [->|Hlf].
      * change (notLineBreak Js.LF) with false. apply IH2.
      * assert (notLineBreak a = true) as ->.
        { unfold notLineBreak. by rewrite !bool_decide_eq_false_2. }
        by rewrite IH2.
Qed.

Lemma keep_idem p s : keep p (keep p s) = keep p s.
Proof.
  induction s as [|a s IH]; [done|]. cbn [keep].
  destruct (p a) eqn:Ha; [|done]. cbn [keep]. by rewrite Ha, IH.
Qed.

Lemma notLineBreak_not_ws a : Js.isWhiteSpace a = false -> notLineBreak a = true.
Proof.
  intros Ha. unfold notLineBreak.
  repeat case_bool_decide; subst; done.
Qed.

Lemma keep_headOk s : headOk s -> headOk (keep notLineBreak s).
Proof.
  destruct s as [|a s]; [done|]. cbn [headOk keep]. intros Ha.
  by rewrite notLineBreak_not_ws.
Qed.

Lemma keep_empty_trimEnd s : keep notLineBreak s = "" -> Js.trimEnd s = "".
Proof.
  induction s as [|a s IH]; [done|]. cbn [keep Js.trimEnd].
  destruct (notLineBreak a) eqn:Ha; [done|]. intros Hs. rewrite IH by done.
  destruct (Js.isWhiteSpace a) eqn:Hws; [done|].
  by rewrite notLineBreak_not_ws in Ha.
Qed.

Lemma keep_trimEnd s :
  Js.trimEnd s = s -> Js.trimEnd (keep notLineBreak s) = keep notLineBreak s.
Proof.
  induction s as [|a s IH]; intros H; [done|].
  assert (Js.trimEnd s = s
          /\ (s = "" -> Js.isWhiteSpace a = false)
          /\ (Js.isWhiteSpace a = true -> s <> "")) as (Hs & Hlast & Hne).
  { cbn [Js.trimEnd] in H. destruct (Js.trimEnd s) as [|b r] eqn:E.
    - destruct (Js.isWhiteSpace a); [done|]. by injection H as <-.
    - injection H as <-. done. }
  cbn [keep]. destruct (notLineBreak a) eqn:Ha; [|by apply IH].
  cbn [Js.trimEnd]. rewrite IH by done.
  destruct (keep notLineBreak s) eqn:E; [|done].
  apply keep_empty_trimEnd in E. rewrite Hs in E.
  by rewrite (Hlast E).
Qed.

(** X5.  Stripping line breaks deletes exactly the carriage returns and
    line feeds: what remains is the other characters, in their order. *)
Theorem stripLineBreaks_removes_exactly_breaks s :
  Js.stripLineBreaks s = keep notLineBreak s
  /\ (Js.includes Js.CR s = false -> Js.includes Js.LF s = false ->
      Js.stripLineBreaks s = s).
Proof.
  split; [apply stripLineBreaks_keep|]. rewrite stripLineBreaks_keep.
  induction s as [|a s IH]; [done|]. cbn [Js.includes keep].
  destruct (decide (a = Js.CR)) as [->|Hcr]; [done|].
  destruct (decide (a = Js.LF)) as [->|Hlf]; [done|].
  intros Hcr' Hlf'.
  assert (notLineBreak a = true) as ->.
  { unfold notLineBreak. by rewrite !bool_decide_eq_false_2. }
  by rewrite IH.
Qed.

Lemma stripLineBreaks_removes_exactly_breaks_witness :
  Js.stripLineBreaks "Al FRC qm 12" = "Al FRC qm 12".
Proof.
  apply (proj2 (stripLineBreaks_removes_exactly_breaks "Al FRC qm 12"));
    reflexivity.
Defined.

(** X6.  Normalization is idempotent: a normalized payload is neither
    trimmed nor stripped any further, so a stored raw text that is scanned
    again is taken as it is (when no decompression intervenes). *)
Theorem normalizedData_idempotent data :
  normalizedData (normalizedData data) = normalizedData data
  /\ Js.trim (normalizedData data) = normalizedData data.
Proof.
  assert (Js.trim (normalizedData data) = normalizedData data) as Htrim.
  { unfold normalizedData. rewrite stripLineBreaks_keep. unfold Js.trim at 1.
    rewrite headOk_trimStart by apply keep_headOk, trim_headOk.
    apply keep_trimEnd, trim_trimEnd. }
  split; [|done]. unfold normalizedData at 1. rewrite Htrim.
  unfold normalizedData. by rewrite !stripLineBreaks_keep, keep_idem.
Qed.

(** ** Deduplication, continued *)

Lemma hyphen_split a : forall a' r r',
  hyphenFree a = true -> hyphenFree a' = true ->
  a +:+ "-" +:+ r = a' +:+ "-" +:+ r' -> a = a' /\ r = r'.
Proof.
  unfold hyphenFree.
  induction a as [|c a IH]; intros [|c' a'] r r' Ha Ha' Heq.
  - rewrite !sapp_nil_l in Heq. by simplify_eq.
  - rewrite sapp_nil_l, sapp_cons in Heq. cbn [Js.includes] in Ha'.
    change ("-" +:+ r) with (String "-" r) in Heq.
    injection Heq as <- _. by rewrite decide_True in Ha'.
  - rewrite sapp_nil_l, sapp_cons in Heq. cbn [Js.includes] in Ha.
    change ("-" +:+ r') with (String "-" r') in Heq.
    injection Heq as -> _. by rewrite decide_True in Ha.
  - rewrite !sapp_cons in Heq. injection Heq as <- Heq.
    cbn [Js.includes] in Ha, Ha'.
    destruct (decide (c = "-"%char)); [done|].
    destruct (IH a' r r' Ha Ha' Heq) as [-> ->]. done.
Qed.

Lemma truthyField_Some v :
  truthyField v = true -> exists s, v = Some s /\ interpolate v = s /\ s <> "".
Proof. destruct v as [[|a s]|]; try done. intros _. by eexists. Qed.

(** X7.  Keys of identified records tell the records apart as long as
    the event code, match level, match number and team number hold no
    hyphen: equal keys then mean equal event code and match level (an
    absent one counting as empty) and equal match number, team number and
    scouter name. *)
Theorem identified_key_injective p1 p2 raw1 raw2 :
  truthyField (p1 !! "matchNumber") && truthyField (p1 !! "teamNumber")
    && truthyField (p1 !! "scouterName") = true ->
  truthyField (p2 !! "matchNumber") && truthyField (p2 !! "teamNumber")
    && truthyField (p2 !! "scouterName") = true ->
  Forall (fun p : gmap string string =>
            hyphenFree (orEmpty (p !! "eventCode")) = true
            /\ hyphenFree (orEmpty (p !! "matchLevel")) = true
            /\ hyphenFree (interpolate (p !! "matchNumber")) = true
            /\ hyphenFree (interpolate (p !! "teamNumber")) = true) [p1; p2] ->
  generateRecordKey (Some p1) raw1 = generateRecordKey (Some p2) raw2 ->
  orEmpty (p1 !! "eventCode") = orEmpty (p2 !! "eventCode")
  /\ orEmpty (p1 !! "matchLevel") = orEmpty (p2 !! "matchLevel")
  /\ p1 !! "matchNumber" = p2 !! "matchNumber"
  /\ p1 !! "teamNumber" = p2 !! "teamNumber"
  /\ p1 !! "scouterName" = p2 !! "scouterName".
Proof.
  intros Hid1 Hid2 Hfree Hkey. cbn [generateRecordKey] in Hkey.
  rewrite Hid1, Hid2 in Hkey.
  apply Forall_cons in Hfree as [(He1 & Hl1 & Hm1 & Ht1) Hfree].
  apply Forall_cons in Hfree as [(He2 & Hl2 & Hm2 & Ht2) _].
  apply hyphen_split in Hkey as [He Hkey]; [|done..].
  apply hyphen_split in Hkey as [Hl Hkey]; [|done..].
  apply hyphen_split in Hkey as [Hm Hkey]; [|done..].
  apply hyphen_split in Hkey as [Ht Hs]; [|done..].
  apply andb_true_iff in Hid1 as [[Hm1' Ht1']%andb_true_iff Hs1'].
  apply andb_true_iff in Hid2 as [[Hm2' Ht2']%andb_true_iff Hs2'].
  destruct (truthyField_Some _ Hm1') as (m1 & Em1 & Im1 & _).
  destruct (truthyField_Some _ Hm2') as (m2 & Em2 & Im2 & _).
  destruct (truthyField_Some _ Ht1') as (t1 & Et1 & It1 & _).
  destruct (truthyField_Some _ Ht2') as (t2 & Et2 & It2 & _).
  destruct (truthyField_Some _ Hs1') as (s1 & Es1 & Is1 & _).
  destruct (truthyField_Some _ Hs2') as (s2 & Es2 & Is2 & _).
  split_and!; [done|done|..]; congruence.
Qed.

Lemma identified_key_injective_witness :
  let p1 := parseFrcData "Al FRC qm 12 R1 254 fast" in
  let p2 := parseFrcData "Al FRC qm 12 R1 254 slow climber" in
  orEmpty (p1 !! "eventCode") = orEmpty (p2 !! "eventCode")
  /\ orEmpty (p1 !! "matchLevel") = orEmpty (p2 !! "matchLevel")
  /\ p1 !! "matchNumber" = p2 !! "matchNumber"
  /\ p1 !! "teamNumber" = p2 !! "teamNumber"
  /\ p1 !! "scouterName" = p2 !! "scouterName".
Proof.
  intros p1 p2.
  apply (identified_key_injective p1 p2 "" "");
    [reflexivity | reflexivity | | reflexivity].
  repeat constructor.
Defined.

(** X8.  The dedup lookup returns the most recent record with the
    candidate's key: the record found is in the history, has the key, and
    no record before it has; nothing is found exactly when no record has
    the key. *)
Theorem isDuplicateRecord_first scanHistory parsed raw :
  match isDuplicateRecord scanHistory parsed raw with
  | Some existing =>
      exists newer older,
        scanHistory = newer ++ existing :: older
        /\ keyOf existing = generateRecordKey parsed raw
        /\ Forall (fun r => keyOf r <> generateRecordKey parsed raw) newer
  | None => Forall (fun r => keyOf r <> generateRecordKey parsed raw) scanHistory
  end.
Proof.
  unfold isDuplicateRecord, keyOf.
  induction scanHistory as [|r rest IH]; cbn [List.find]; [constructor|].
  case_bool_decide as Hr.
  - exists [], rest. split_and!; [done|done|constructor].
  - destruct (List.find _ rest) as [existing|].
    + destruct IH as (newer & older & -> & Hkey & Hnewer).
      exists (r :: newer), older. split_and!; [done|done|].
      by apply Forall_cons.
    + by apply Forall_cons.
Qed.

(** ** The store under ingestion, dispatch and edits *)

Lemma updateRecordStatus_statusMsgOk rid st msg store :
  match msg with Some m => st = error /\ m <> "" | None => st <> error end ->
  Forall statusMsgOk store ->
  Forall statusMsgOk (updateRecordStatus rid st msg store).
Proof.
  intros Hok Hstore. unfold updateRecordStatus. apply Forall_map.
  eapply Forall_impl; [done|]. intros r Hr. cbn beta.
  case_bool_decide; [|done]. unfold statusMsgOk, withStatus. cbn.
  by destruct msg.
Qed.

Lemma run_uploadData_statusMsgOk env clock r outcome store :
  Forall statusMsgOk store ->
  Forall statusMsgOk (run (uploadData env clock r outcome) store).
Proof.
  intros Hstore. unfold uploadData.
  destruct (Js.truthy (scriptUrl env)); [|done]. cbn [negb].
  unfold run. cbn [foldl applyEffect].
  destruct outcome as [|message]; cbn [applyEffect];
    repeat apply updateRecordStatus_statusMsgOk; try done.
  split; [done|]. by destruct message as [[|a m]|].
Qed.

(** X9.  Every handler keeps the rule that [errorMsg] is present exactly
    on the records in status [error], and is then not empty: ingestion
    with its dispatch, a dispatch on its own, a comment edit and the
    clearing of the history all keep it. *)
Theorem status_message_invariant store :
  Forall statusMsgOk store ->
  (forall env clock scanHistory data outcome,
     Forall statusMsgOk
       (run (handleScan env clock scanHistory data outcome) store))
  /\ (forall env clock r outcome,
        Forall statusMsgOk (run (uploadData env clock r outcome) store))
  /\ (forall rid newComment,
        Forall statusMsgOk (updateComment rid newComment store))
  /\ (forall confirmed, Forall statusMsgOk (clearHistory confirmed store)).
Proof.
  intros Hstore. split_and!.
  - intros env clock scanHistory data outcome. unfold handleScan.
    destruct (isDuplicateRecord _ _ _); [done|].
    rewrite run_app. apply run_uploadData_statusMsgOk.
    unfold run. cbn [foldl applyEffect]. by apply Forall_cons.
  - intros. by apply run_uploadData_statusMsgOk.
  - intros rid newComment. unfold updateComment. apply Forall_map.
    eapply Forall_impl; [done|]. intros r Hr. cbn beta.
    by case_bool_decide.
  - intros [|]; [constructor|done].
Qed.

Lemma status_message_invariant_witness :
  Forall statusMsgOk
    (run (handleScan (mkEnv "https://example.org/exec" false None)
            (mkClock 1 "10:00" "10:00") [] "Al FRC qm 12 R1 254"
            (Rejected None)) []).
Proof.
  apply (proj1 (status_message_invariant [] (Forall_nil_2 _))).
Defined.

Lemma updateRecordStatus_payloads rid st msg store :
  map payloadOf (updateRecordStatus rid st msg store) = map payloadOf store.
Proof.
  unfold updateRecordStatus. rewrite map_map. apply map_ext.
  intros r. by case_bool_decide.
Qed.

Lemma run_uploadData_payloads env clock r outcome store :
  map payloadOf (run (uploadData env clock r outcome) store)
  = map payloadOf store.
Proof.
  destruct (uploadData_shape env clock r outcome) as [->|(st & msg & ->)];
    [done|].
  unfold run. cbn [foldl applyEffect].
  by rewrite !updateRecordStatus_payloads.
Qed.

(** X10.  Ingestion and dispatch never drop, reorder or rewrite what a
    record carries: the store keeps its length under a dispatch, and after
    an ingestion the ids, timestamps, raw texts, parsed mappings and
    previews of the records are those of before, with those of the new
    record in front when the payload was accepted. *)
Theorem payloads_only_prepended env clock scanHistory data outcome store :
  (forall r, map payloadOf (run (uploadData env clock r outcome) store)
             = map payloadOf store)
  /\ (map payloadOf (run (handleScan env clock scanHistory data outcome) store)
      = if bool_decide (countKey (candidateKey env data) scanHistory = 0)
        then payloadOf (newRecord env clock data) :: map payloadOf store
        else map payloadOf store).
Proof.
  split; [intros; apply run_uploadData_payloads|].
  case_bool_decide as Hfresh.
  - rewrite run_handleScan_fresh by done. by rewrite run_uploadData_payloads.
  - by rewrite handleScan_duplicate.
Qed.

Lemma updateComment_lookup rid newComment store j x :
  store !! j = Some x ->
  updateComment rid newComment store !! j
  = Some (if bool_decide (x.(id) = rid) then
            mkScanRecord x.(id) x.(timestamp) x.(raw)
              ((fun p => <["comments" := newComment]> p) <$> x.(parsed))
              x.(displayData) x.(status) x.(errorMsg)
          else x).
Proof.
  intros Hj. unfold updateComment.
  change (map ?f store) with (f <$> store).
  by rewrite list_lookup_fmap, Hj.
Qed.



(** X12.  An edited comment is what the next dispatch transmits: for a
    record with a parsed mapping, the columns sent after the edit are the
    seventeen first columns of before followed by the new comment. *)
Theorem edited_comment_is_sent rid newComment store j x p :
  store !! j = Some x -> x.(id) = rid -> x.(parsed) = Some p ->
  exists x',
    updateComment rid newComment store !! j = Some x'
    /\ uploadCols x' = take 17 (uploadCols x) ++ [newComment]
    /\ x'.(id) = x.(id) /\ x'.(status) = x.(status).
Proof.
  intros Hj Hid Hp. eexists. split; [by apply updateComment_lookup|].
  rewrite bool_decide_eq_true_2 by done.
  split; [|done]. unfold uploadCols. cbn [parsed]. rewrite Hp.
  unfold FRC_COLUMNS. cbn [fmap option_fmap option_map map take app].
  rewrite lookup_insert_eq. by rewrite !lookup_insert_ne by done.
Qed.

Lemma edited_comment_is_sent_witness :
  let x := newRecord (mkEnv "" false None) (mkClock 7 "10:00" "10:00")
             "Al FRC qm 12 R1 254" in
  exists x',
    updateComment 7 "fast" [x] !! 0 = Some x'
    /\ uploadCols x' = take 17 (uploadCols x) ++ ["fast"]
    /\ x'.(id) = x.(id) /\ x'.(status) = x.(status).
Proof.
  intros x.
  apply (edited_comment_is_sent 7 "fast" [x] 0 x
           (parseFrcData "Al FRC qm 12 R1 254"));
    reflexivity.
Defined.

Lemma updateRecordStatus_twice rid st msg st' msg' (store : Store) j y :
  store !! j = Some y -> y.(id) = rid ->
  updateRecordStatus rid st' msg' (updateRecordStatus rid st msg store) !! j
  = Some (withStatus y st' msg').
Proof.
  intros Hy Hid.
  rewrite (updateRecordStatus_lookup _ _ _ _ _
             (withStatus y st msg)).
  - by rewrite bool_decide_eq_true_2.
  - rewrite (updateRecordStatus_lookup _ _ _ _ _ y Hy).
    by rewrite bool_decide_eq_true_2.
Qed.

(** The state of a record once its dispatch has settled. *)
Lemma run_uploadData_lookup env clock r outcome (store : Store) j y :
  Js.truthy env.(scriptUrl) = true ->
  store !! j = Some y -> y.(id) = r.(id) ->
  run (uploadData env clock r outcome) store !! j
  = Some (match outcome with
          | Resolved => withStatus y sent None
          | Rejected message =>
              withStatus y error
                (Some (match message with
                       | Some m => Js.or m "Network Error"
                       | None => "Network Error"
                       end))
          end).
Proof.
  intros Hurl Hy Hid. unfold uploadData. rewrite Hurl. cbn [negb].
  unfold run. cbn [foldl applyEffect].
  destruct outcome; by apply updateRecordStatus_twice.
Qed.

(** X13.  A failed dispatch followed by a successful one leaves the
    record in status [sent] without an error message, whatever message
    the failure had left; after the failed one alone the record is in
    status [error] with a message. *)
Theorem retry_after_failure env clock1 clock2 r message store j x :
  Js.truthy env.(scriptUrl) = true ->
  store !! j = Some x -> x.(id) = r.(id) ->
  (exists text,
     run (uploadData env clock1 r (Rejected message)) store !! j
     = Some (withStatus x error (Some text)) /\ text <> "")
  /\ run (uploadData env clock1 r (Rejected message)
          ++ uploadData env clock2 r Resolved) store !! j
     = Some (withStatus x sent None).
Proof.
  intros Hurl Hj Hid.
  pose proof (run_uploadData_lookup env clock1 r (Rejected message) store j x
                Hurl Hj Hid) as Hfailed.
  split.
  - eexists. split; [exact Hfailed|]. by destruct message as [[|a m]|].
  - rewrite run_app.
    by rewrite (run_uploadData_lookup env clock2 r Resolved _ j _ Hurl Hfailed).
Qed.

Lemma retry_after_failure_witness :
  let env := mkEnv "https://example.org/exec" false None in
  let x := newRecord env (mkClock 7 "10:00" "10:00") "Al FRC qm 12 R1 254" in
  run (uploadData env (mkClock 8 "10:01" "10:01") x (Rejected None)
       ++ uploadData env (mkClock 9 "10:02" "10:02") x Resolved) [x] !! 0
  = Some (withStatus x sent None).
Proof.
  intros env x.
  apply (proj2 (retry_after_failure env (mkClock 8 "10:01" "10:01")
                  (mkClock 9 "10:02" "10:02") x None [x] 0 x
                  eq_refl eq_refl eq_refl)).
Defined.

(** ** The receiving script *)

Lemma fixFrcSplit_fixTokens arr : fixFrcSplit arr = fixTokens arr.
Proof. apply fixSplitData_fixTokens. Qed.

Lemma doPostCols_length raw jsonCols :
  length (doPostCols raw jsonCols) <= 18.
Proof.
  unfold doPostCols. rewrite FRC_COLUMNS_length. change (18 - 1) with 17.
  set (cols0 := match jsonCols with
                | JsonArray decoded => decoded
                | _ => rawCols raw
                end).
  set (cols1 := if bool_decide (18 < length cols0) then fixFrcSplit cols0
                else cols0).
  destruct (bool_decide (18 < length cols1)) eqn:Hlong.
  - rewrite length_app, length_take. cbn [length]. lia.
  - apply bool_decide_eq_false in Hlong. lia.
Qed.

(** X14.  The row that the script appends never has more than nineteen
    cells, the timestamp and one cell for each Schema field, whatever
    the request carries; it always has at least the timestamp and one
    more cell. *)
Theorem doPost_row_bounded timestamp raw jsonCols :
  2 <= length (doPostRow timestamp raw jsonCols) <= 19
  /\ head (doPostRow timestamp raw jsonCols) = Some timestamp.
Proof.
  unfold doPostRow. pose proof (doPostCols_length raw jsonCols).
  case_bool_decide; cbn [length head]; [|split; [lia|done]].
  rewrite List.length_map. split; [lia|done].
Qed.

(** X15.  When more than eighteen columns arrive, the script folds the
    overflow into the last cell and drops no text: the columns of the row
    joined with single spaces read as the columns that arrived did (by
    [jsonCols], or by splitting [raw] when [jsonCols] is absent or does
    not decode). *)
Theorem doPost_keeps_text raw jsonCols :
  Js.join " " (doPostCols raw jsonCols)
  = Js.join " " (match jsonCols with
                 | JsonArray decoded => decoded
                 | BadJsonCols | NoJsonCols => rawCols raw
                 end).
Proof.
  unfold doPostCols. rewrite FRC_COLUMNS_length. change (18 - 1) with 17.
  set (cols0 := match jsonCols with
                | JsonArray decoded => decoded
                | _ => rawCols raw
                end).
  set (cols1 := if bool_decide (18 < length cols0) then fixFrcSplit cols0
                else cols0).
  assert (Js.join " " cols1 = Js.join " " cols0) as Hfix.
  { unfold cols1. case_bool_decide; [|done]. rewrite fixFrcSplit_fixTokens.
    apply join_fixTokens. }
  destruct (bool_decide (18 < length cols1)) eqn:Hlong; [|done].
  apply bool_decide_eq_true in Hlong.
  rewrite join_fold_tail by lia. done.
Qed.

(** X16.  What the dispatcher sends for a record with a parsed mapping
    reaches the sheet unchanged: the row is the send time followed by the
    eighteen column values, in Schema order.  For a record without a
    parsed mapping the script repairs and folds the columns it receives,
    and the repair, already applied by the dispatcher, changes nothing. *)
Theorem upload_row_is_columns clock r :
  let '(timestamp, raw, jsonCols) := received (uploadParams clock r) in
  (r.(parsed) <> None ->
   doPostRow timestamp raw jsonCols
   = Some clock.(localeString) :: map Some (uploadCols r)
   /\ length (doPostRow timestamp raw jsonCols) = 19)
  /\ doPostCols raw jsonCols
     = if bool_decide (18 < length (uploadCols r))
       then take 17 (uploadCols r) ++ [Js.join " " (drop 17 (uploadCols r))]
       else uploadCols r.
Proof.
  cbn [received uploadParams p_timestamp p_raw p_jsonCols].
  assert (doPostCols (Some (simulatedRaw r)) (JsonArray (uploadCols r))
          = if bool_decide (18 < length (uploadCols r))
            then take 17 (uploadCols r)
                   ++ [Js.join " " (drop 17 (uploadCols r))]
            else uploadCols r) as Hcols.
  { unfold doPostCols. rewrite FRC_COLUMNS_length. change (18 - 1) with 17.
    assert ((if bool_decide (18 < length (uploadCols r))
             then fixFrcSplit (uploadCols r) else uploadCols r)
            = uploadCols r) as ->; [|done].
    case_bool_decide as Hlong; [|done].
    unfold uploadCols in *. destruct (parsed r) as [p|].
    - rewrite List.length_map, FRC_COLUMNS_length in Hlong. lia.
    - rewrite fixFrcSplit_fixTokens, fixSplitData_fixTokens.
      apply fixTokens_idem. }
  split; [|done]. intros Hparsed.
  assert (length (uploadCols r) = 18) as Hlen.
  { unfold uploadCols. destruct (parsed r); [|done].
    by rewrite List.length_map. }
  unfold doPostRow. rewrite Hcols.
  rewrite (bool_decide_eq_false_2 (18 < length (uploadCols r))) by lia.
  rewrite (bool_decide_eq_true_2 (0 < length (uploadCols r))) by lia.
  split; [done|]. cbn [length]. by rewrite List.length_map, Hlen.
Qed.

Lemma upload_row_is_columns_witness :
  let r := newRecord (mkEnv "" false None) (mkClock 7 "10:00" "10:00")
             "Al FRC qm 12 R1 254" in
  let clock := mkClock 8 "10:01" "10:01" in
  doPostRow (Some "10:01") (Some (simulatedRaw r)) (JsonArray (uploadCols r))
  = Some "10:01" :: map Some (uploadCols r)
  /\ length (doPostRow (Some "10:01") (Some (simulatedRaw r))
               (JsonArray (uploadCols r))) = 19.
Proof.
  intros r clock.
  apply (proj1 (upload_row_is_columns clock r)). discriminate.
Defined.

(** ** Settings *)

(** X17.  Saving the settings is refused exactly when the trimmed URL is
    not empty and does not begin with [http]; nothing is stored then.
    A URL that is stored is trimmed, and is empty or begins with [http];
    saving the stored settings again stores the same. *)
Theorem saveSettings_validates st storage :
  (saveSettings st storage = None
   <-> Js.trim st.(st_scriptUrl) <> ""
       /\ startsWith "http" (Js.trim st.(st_scriptUrl)) = false)
  /\ (forall st' storage',
        saveSettings st storage = Some (st', storage') ->
        st'.(st_scriptUrl) = Js.trim st.(st_scriptUrl)
        /\ st'.(st_useLZ) = st.(st_useLZ)
        /\ (st'.(st_scriptUrl) = ""
            \/ startsWith "http" st'.(st_scriptUrl) = true)
        /\ storage'.(frc_script_url) = Some st'.(st_scriptUrl)
        /\ forall other, saveSettings st' other = Some (st', storage')).
Proof.
  unfold saveSettings.
  destruct (Js.trim (st_scriptUrl st)) as [|a url] eqn:Htrim.
  - cbn. split; [split; [done|by intros [? _]]|].
    intros st' storage' [= <- <-]. cbn. split_and!; try done. by left.
  - cbn [Js.truthy andb].
    destruct (startsWith "http" (String a url)) eqn:Hhttp; cbn [negb].
    + split; [split; [done|by intros [_ ?]]|].
      intros st' storage' [= <- <-]. cbn [st_scriptUrl st_useLZ frc_script_url].
      split_and!; try done; [by right|].
      intros other. rewrite <- Htrim, trim_idem, Htrim.
      cbn [Js.truthy andb]. by rewrite Hhttp.
    + split; [by split|]. by intros st' storage' [=].
Qed.

Lemma saveSettings_validates_witness :
  let st := mkSettings "  https://example.org/exec " true in
  let storage := mkLocalStorage None None in
  exists st' storage',
    saveSettings st storage = Some (st', storage')
    /\ st'.(st_scriptUrl) = "https://example.org/exec".
Proof.
  intros st storage. eexists _, _. split; [reflexivity|].
  apply (proj2 (saveSettings_validates st storage) _ _ eq_refl).
Defined.

(** X18.  Saved settings come back at the next start: the compression
    flag as it was saved, and the URL as it was saved unless it was empty,
    in which case the start puts the default URL back. *)
Theorem settings_restored st storage st' storage' :
  saveSettings st storage = Some (st', storage') ->
  initSettings storage'
  = mkSettings
      (if Js.truthy st'.(st_scriptUrl) then st'.(st_scriptUrl)
       else DEFAULT_SCRIPT_URL)
      st.(st_useLZ).
Proof.
  unfold saveSettings. destruct (_ && _); [done|].
  intros [= <- <-]. unfold initSettings.
  cbn [frc_script_url frc_use_lz st_scriptUrl]. f_equal.
  by destruct (st_useLZ st).
Qed.

Lemma settings_restored_witness :
  initSettings (mkLocalStorage (Some "") (Some "true"))
  = mkSettings DEFAULT_SCRIPT_URL true.
Proof.
  apply (settings_restored (mkSettings "   " true) (mkLocalStorage None None)
           (mkSettings "" true) (mkLocalStorage (Some "") (Some "true"))).
  reflexivity.
Defined.

(** ** The preview *)

Lemma substring0_length n s : String.length (Js.substring0 n s) <= n.
Proof.
  unfold Js.substring0. revert s.
  induction n as [|n IH]; intros [|a s]; cbn; try lia.
  specialize (IH s). lia.
Qed.

Lemma sapp_length s t :
  String.length (s +:+ t) = String.length s + String.length t.
Proof. induction s as [|a s IH]; [done|]. rewrite sapp_cons. cbn. lia. Qed.

(** X19.  For a payload without a non-empty scouter name, match number
    and team number, the preview is the processed text itself when that
    has at most fifty characters, and otherwise its first fifty characters
    followed by three dots: never more than fifty-three characters. *)
Theorem preview_of_unidentified parsed text :
  truthyField (parsed !! "scouterName")
    && truthyField (parsed !! "matchNumber")
    && truthyField (parsed !! "teamNumber") = false ->
  String.length (preview parsed text) <= 53
  /\ (String.length text <= 50 -> preview parsed text = text)
  /\ (50 < String.length text ->
      preview parsed text = Js.substring0 50 text +:+ "...").
Proof.
  intros Hun. unfold preview. rewrite Hun.
  case_bool_decide as Hlen.
  - split_and!; [|lia|done].
    rewrite sapp_length. pose proof (substring0_length 50 text). cbn. lia.
  - split_and!; [lia|done|lia].
Qed.

Lemma preview_of_unidentified_witness :
  String.length (preview (parseFrcData "hello") "hello") <= 53
  /\ (String.length "hello" <= 50 ->
      preview (parseFrcData "hello") "hello" = "hello")
  /\ (50 < String.length "hello" ->
      preview (parseFrcData "hello") "hello"
      = Js.substring0 50 "hello" +:+ "...").
Proof.
  apply (preview_of_unidentified (parseFrcData "hello") "hello").
  reflexivity.
Defined.

(** ** Lines of fields and the parser *)

Lemma splitChar_free c x : Js.includes c x = false -> Js.splitChar c x = [x].
Proof.
  induction x as [|a x IH]; [done|]. cbn [Js.includes Js.splitChar].
  case_decide; [done|]. intros Hx. by rewrite IH.
Qed.

Lemma splitChar_app c x r :
  Js.includes c x = false ->
  Js.splitChar c (x +:+ String c r) = x :: Js.splitChar c r.
Proof.
  induction x as [|a x IH].
  - intros _. rewrite sapp_nil_l. cbn [Js.splitChar]. by rewrite decide_True.
  - cbn [Js.includes]. rewrite sapp_cons. cbn [Js.splitChar].
    case_decide; [done|]. intros Hx. by rewrite IH.
Qed.

Lemma includes_app_sep c x r : Js.includes c (x +:+ String c r) = true.
Proof.
  induction x as [|a x IH].
  - rewrite sapp_nil_l. cbn. by rewrite decide_True.
  - rewrite sapp_cons. cbn [Js.includes]. by case_decide.
Qed.

Lemma splitChar_join c fields :
  fields <> [] ->
  Forall (fun f => Js.includes c f = false) fields ->
  Js.splitChar c (Js.join (String c "") fields) = fields.
Proof.
  induction fields as [|x fields IH]; [done|]. intros _ Hfree.
  apply Forall_cons in Hfree as [Hx Hfree].
  destruct fields as [|y fields]; [by apply splitChar_free|].
  rewrite join_cons by done.
  change (String c "" +:+ ?t) with (String c t).
  rewrite splitChar_app by done. by rewrite IH.
Qed.

(** X20.  A line of at least two tab-free fields joined by tabs, with no
    white space at its ends, is split back into exactly those fields,
    empty ones included, and each Schema field receives the field at its
    position. *)
Theorem tab_line_roundtrip fields :
  2 <= length fields ->
  Forall (fun f => Js.includes Js.TAB f = false) fields ->
  let text := Js.join (String Js.TAB "") fields in
  Js.trim text = text ->
  parseParts text = fields
  /\ forall i col,
       FRC_COLUMNS !! i = Some col -> parseFrcData text !! col = fields !! i.
Proof.
  intros Hlen Hfree text Htrim.
  assert (Js.includes Js.TAB text = true) as Htab.
  { unfold text. destruct fields as [|x [|y fields]]; [cbn in Hlen; lia..|].
    rewrite join_cons by done.
    change (String Js.TAB "" +:+ ?t) with (String Js.TAB t).
    apply includes_app_sep. }
  assert (parseParts text = fields) as Hparts.
  { unfold parseParts. rewrite Htrim, Htab. apply splitChar_join; [|done].
    destruct fields; [cbn in Hlen; lia|done]. }
  split; [done|]. intros i col Hcol.
  rewrite (parseFrcData_lookup _ i) by done. unfold fieldValue, isTsv.
  rewrite Hparts, Htrim, Htab.
  destruct (fields !! i); [|done]. by case_bool_decide.
Qed.

Lemma tab_line_roundtrip_witness :
  let fields := ["Al"; ""; "qm"; "Level 2"] in
  let text := Js.join (String Js.TAB "") fields in
  parseParts text = fields
  /\ forall i col,
       FRC_COLUMNS !! i = Some col -> parseFrcData text !! col = fields !! i.
Proof.
  intros fields text.
  apply (tab_line_roundtrip fields); [cbn; lia | | reflexivity].
  repeat constructor.
Defined.

Lemma splitWs_word b x :
  hasWhiteSpace x = false -> Js.splitWsFrom b x = [x].
Proof.
  revert b. induction x as [|a x IH]; intros b; [done|].
  cbn [hasWhiteSpace Js.splitWsFrom].
  intros [Ha Hx]%orb_false_iff. by rewrite Ha, IH.
Qed.

Lemma splitWs_word_app x r :
  hasWhiteSpace x = false ->
  Js.splitWsFrom false (x +:+ String Js.SPACE r) = x :: Js.splitWsFrom true r.
Proof.
  induction x as [|a x IH].
  - intros _. by rewrite sapp_nil_l.
  - cbn [hasWhiteSpace]. intros [Ha Hx]%orb_false_iff.
    rewrite sapp_cons. cbn [Js.splitWsFrom]. by rewrite Ha, IH.
Qed.

Lemma splitWsFrom_headOk b s :
  headOk s -> s <> "" -> Js.splitWsFrom b s = Js.splitWsFrom false s.
Proof. destruct s as [|a s]; [done|]. cbn. by intros ->. Qed.

Lemma isWord_headOk x r : isWord x -> headOk (x +:+ r) /\ x +:+ r <> "".
Proof.
  intros [Hx Hws]. destruct x as [|a x]; [done|]. rewrite sapp_cons.
  cbn [hasWhiteSpace] in Hws. apply orb_false_iff in Hws as [Ha _].
  by split.
Qed.

Lemma join_words_head toks :
  toks <> [] -> Forall isWord toks ->
  headOk (Js.join " " toks) /\ Js.join " " toks <> "".
Proof.
  destruct toks as [|x toks]; [done|]. intros _ [Hx _]%Forall_cons.
  destruct toks as [|y toks].
  - pose proof (isWord_headOk x "" Hx) as H. by rewrite sapp_nil_r in H.
  - rewrite join_cons by done. by apply isWord_headOk.
Qed.

Lemma splitWs_join_words toks :
  toks <> [] -> Forall isWord toks ->
  Js.splitWsFrom false (Js.join " " toks) = toks.
Proof.
  induction toks as [|x toks IH]; [done|]. intros _ Hwords.
  apply Forall_cons in Hwords as [[Hx Hws] Hwords].
  destruct toks as [|y toks]; [by apply splitWs_word|].
  rewrite join_cons by done.
  change (" " +:+ ?t) with (String Js.SPACE t).
  rewrite splitWs_word_app by done.
  destruct (join_words_head (y :: toks)) as [Hhead Hne]; [done|done|].
  rewrite splitWsFrom_headOk by done. by rewrite IH.
Qed.

Lemma trimEnd_word x : isWord x -> Js.trimEnd x = x.
Proof.
  intros [_ Hws]. induction x as [|a x IH]; [done|].
  cbn [hasWhiteSpace] in Hws. apply orb_false_iff in Hws as [Ha Hx].
  cbn [Js.trimEnd]. rewrite IH by done. rewrite Ha. by destruct x.
Qed.

Lemma trimEnd_app_fixed s r :
  Js.trimEnd r = r -> r <> "" -> Js.trimEnd (s +:+ r) = s +:+ r.
Proof.
  intros Hr Hne. induction s as [|a s IH]; [done|].
  rewrite sapp_cons. cbn [Js.trimEnd]. rewrite IH.
  destruct (s +:+ r) eqn:E; [|done].
  destruct s; [by rewrite sapp_nil_l in E|by rewrite sapp_cons in E].
Qed.

Lemma join_words_trimEnd toks :
  toks <> [] -> Forall isWord toks ->
  Js.trimEnd (Js.join " " toks) = Js.join " " toks.
Proof.
  induction toks as [|x toks IH]; [done|]. intros _ Hwords.
  apply Forall_cons in Hwords as [Hx Hwords].
  destruct toks as [|y toks]; [by apply trimEnd_word|].
  rewrite join_cons by done.
  destruct (join_words_head (y :: toks)) as [_ Hne]; [done|done|].
  apply trimEnd_app_fixed.
  - change (" " +:+ ?t) with (String Js.SPACE t). cbn [Js.trimEnd].
    rewrite IH by done. by destruct (Js.join " " (y :: toks)).
  - done.
Qed.

(** X21.  A line of words (not empty, free of white space, none of them
    [Level]) joined by single spaces is split back into exactly those
    words; each Schema field but the last receives the word at its
    position, and the last receives the remaining words joined by single
    spaces. *)
Theorem space_line_roundtrip toks :
  toks <> [] ->
  Forall (fun tok => isWord tok /\ tok <> "Level") toks ->
  let text := Js.join " " toks in
  parseParts text = toks
  /\ (forall i col,
        i < 17 -> FRC_COLUMNS !! i = Some col ->
        parseFrcData text !! col = toks !! i)
  /\ parseFrcData text !! "comments"
     = if bool_decide (17 < length toks)
       then Some (Js.join " " (drop 17 toks)) else None.
Proof.
  intros Hne Htoks text.
  assert (Forall isWord toks) as Hwords.
  { eapply Forall_impl; [exact Htoks|]. by intros tok [? _]. }
  assert (Forall (fun tok => tok <> "Level") toks) as Hlevel.
  { eapply Forall_impl; [exact Htoks|]. by intros tok [_ ?]. }
  assert (Js.trim text = text) as Htrim.
  { unfold Js.trim, text.
    rewrite headOk_trimStart by (by apply join_words_head).
    by apply join_words_trimEnd. }
  assert (Js.splitWs text = toks) as Hsplit
    by (by apply splitWs_join_words).
  assert (Js.includes Js.TAB text = false) as Htab.
  { unfold text. rewrite <- Hsplit at 1. apply includes_tab_join_split. }
  assert (parseParts text = toks) as Hparts.
  { unfold parseParts. rewrite Htrim, Htab, Hsplit, fixSplitData_fixTokens.
    by apply fixTokens_without_Level. }
  assert (isTsv text = false) as Htsv by (unfold isTsv; by rewrite Htrim).
  split_and!; [done| |].
  - intros i col Hi Hcol. rewrite (parseFrcData_lookup _ i) by done.
    unfold fieldValue. rewrite Hparts. destruct (toks !! i); [|done].
    by rewrite bool_decide_eq_false_2 by lia.
  - rewrite (parseFrcData_lookup _ 17) by done.
    unfold fieldValue. rewrite Hparts, Htsv.
    destruct (decide (17 < length toks)) as [Hlen|Hlen].
    + rewrite (bool_decide_eq_true_2 (17 < length toks)) by done.
      by destruct (lookup_lt_is_Some_2 toks 17 Hlen) as [tok ->].
    + rewrite (bool_decide_eq_false_2 (17 < length toks)) by done.
      by rewrite lookup_ge_None_2 by lia.
Qed.

Lemma space_line_roundtrip_witness :
  let toks := ["Al"; "FRC"; "qm"; "12"; "R1"; "254"] in
  parseParts (Js.join " " toks) = toks
  /\ (forall i col,
        i < 17 -> FRC_COLUMNS !! i = Some col ->
        parseFrcData (Js.join " " toks) !! col = toks !! i)
  /\ parseFrcData (Js.join " " toks) !! "comments"
     = if bool_decide (17 < length toks)
       then Some (Js.join " " (drop 17 toks)) else None.
Proof.
  intros toks. apply (space_line_roundtrip toks); [done|].
  repeat constructor; discriminate.
Defined.

(** ** Rescanning *)

Lemma normalizedData_surrounded pre data post :
  Js.all Js.isWhiteSpace pre = true -> Js.all Js.isWhiteSpace post = true ->
  normalizedData (pre +:+ data +:+ post) = normalizedData data.
Proof. intros Hpre Hpost. unfold normalizedData. by rewrite trim_surrounded. Qed.

(** X22.  A payload that was stored is recognised when it is scanned
    again with white space around it: the second scan raises the warning
    and leaves the store as it is. *)
Theorem rescan_with_padding_skipped env clock1 clock2 data pre post
    outcome1 outcome2 store :
  Js.all Js.isWhiteSpace pre = true -> Js.all Js.isWhiteSpace post = true ->
  countKey (candidateKey env data) store = 0 ->
  let store1 := run (handleScan env clock1 store data outcome1) store in
  handleScan env clock2 store1 (pre +:+ data +:+ post) outcome2
  = [ShowToast warning]
  /\ run (handleScan env clock2 store1 (pre +:+ data +:+ post) outcome2) store1
     = store1.
Proof.
  intros Hpre Hpost Hfresh store1.
  assert (candidateKey env (pre +:+ data +:+ post) = candidateKey env data)
    as Hkey.
  { unfold candidateKey, processedData.
    by rewrite normalizedData_surrounded. }
  assert (handleScan env clock2 store1 (pre +:+ data +:+ post) outcome2
          = [ShowToast warning]) as Hskip.
  { apply handleScan_duplicate. rewrite Hkey, countKey_map.
    unfold store1. rewrite run_handleScan_fresh by done.
    rewrite run_uploadData_keys. cbn [map List.filter].
    change (keyOf (newRecord env clock1 data)) with (candidateKey env data).
    by rewrite bool_decide_eq_true_2. }
  by rewrite Hskip.
Qed.

Lemma rescan_with_padding_skipped_witness :
  let env := mkEnv "" false None in
  let store1 :=
    run (handleScan env (mkClock 1 "10:00" "10:00") []
           "Al FRC qm 12 R1 254" Resolved) [] in
  handleScan env (mkClock 2 "10:01" "10:01") store1
    (" " +:+ "Al FRC qm 12 R1 254" +:+ "  ") Resolved
  = [ShowToast warning]
  /\ run (handleScan env (mkClock 2 "10:01" "10:01") store1
            (" " +:+ "Al FRC qm 12 R1 254" +:+ "  ") Resolved) store1
     = store1.
Proof.
  intros env store1.
  apply (rescan_with_padding_skipped env (mkClock 1 "10:00" "10:00")
           (mkClock 2 "10:01" "10:01") "Al FRC qm 12 R1 254" " " "  "
           Resolved Resolved []); reflexivity.
Defined.

(** ** Order of arrival of status updates *)

Lemma run_no_prepend_payload es : forall (store : Store) j x,
  Forall (fun e => match e with Prepend _ => False | _ => True end) es ->
  store !! j = Some x ->
  exists y, run es store !! j = Some y /\ payloadOf y = payloadOf x.
Proof.
  induction es as [|e es IH]; intros store j x Hes Hj; [by exists x|].
  apply Forall_cons in Hes as [He Hes].
  change (run (e :: es) store) with (run es (applyEffect e store)).
  destruct e as [k|r|rid st msg|url params]; try done; cbn [applyEffect].
  - by apply IH.
  - destruct (IH (updateRecordStatus rid st msg store) j
                (if bool_decide (x.(id) = rid) then withStatus x st msg else x)
                Hes (updateRecordStatus_lookup _ _ _ _ _ _ Hj))
      as (y & Hy & Hpay).
    exists y. split; [done|]. rewrite Hpay. by case_bool_decide.
  - by apply IH.
Qed.

(** X23.  Status updates take effect in the order in which they reach
    the store, and the last one addressed to a record stands: whatever
    updates, requests and notifications came before, and whatever came
    after for other ids, the record shows the status and message of that
    last update, its other fields being as they were. *)
Theorem last_status_update_stands before after rid st msg store j x :
  Forall (fun e => match e with Prepend _ => False | _ => True end) before ->
  Forall (fun e => match e with
                   | UpdateRecordStatus rid' _ _ => rid' <> rid
                   | Fetch _ _ | ShowToast _ => True
                   | Prepend _ => False
                   end) after ->
  store !! j = Some x -> x.(id) = rid ->
  run (before ++ UpdateRecordStatus rid st msg :: after) store !! j
  = Some (withStatus x st msg).
Proof.
  intros Hbefore Hafter Hj Hid.
  destruct (run_no_prepend_payload before store j x Hbefore Hj)
    as (y & Hy & Hpay).
  injection Hpay as Hyid Hts Hraw Hparsed Hdisp.
  rewrite run_app.
  change (run (UpdateRecordStatus rid st msg :: after) ?s)
    with (run after (updateRecordStatus rid st msg s)).
  assert (withStatus y st msg = withStatus x st msg) as Heq.
  { unfold withStatus. by rewrite Hyid, Hts, Hraw, Hparsed, Hdisp. }
  apply run_other_ids.
  - eapply Forall_impl; [exact Hafter|]. intros e He.
    destruct e; try done. cbn [withStatus id]. congruence.
  - rewrite (updateRecordStatus_lookup _ _ _ _ _ _ Hy).
    rewrite bool_decide_eq_true_2 by congruence. by rewrite Heq.
Qed.

Lemma last_status_update_stands_witness :
  let env := mkEnv "https://example.org/exec" false None in
  let x := newRecord env (mkClock 7 "10:00" "10:00") "Al FRC qm 12 R1 254" in
  run ([UpdateRecordStatus 7 sending None; UpdateRecordStatus 7 sending None;
        UpdateRecordStatus 7 sent None]
       ++ UpdateRecordStatus 7 error (Some "Network Error") :: []) [x] !! 0
  = Some (withStatus x error (Some "Network Error")).
Proof.
  intros env x.
  apply (last_status_update_stands
           [UpdateRecordStatus 7 sending None; UpdateRecordStatus 7 sending None;
            UpdateRecordStatus 7 sent None]
           [] 7 error (Some "Network Error") [x] 0 x);
    [repeat constructor | constructor | reflexivity | reflexivity].
Defined.
